(** * gear_generator_py: involute spur gears and bevel gear section stacks

    A shallow embedding of [gear_generator.py] and [bevel_gear_generator.py].

    Numbers.  Python [float] values are modelled by the real numbers [R]
    (the arithmetic is the exact one, rounding is not modelled) and Python
    [int] values by [Z]; an [int] meets a [float] through [IZR].  The
    properties below restate formulas of the programs, which hold up to
    rounding; where a property depends on the side of the test
    [scale > 0.1] a value falls on, or on two values being different, it
    is stated with a margin that rounding does not cross.  The module
    [binary64] repeats the scalars of the section loop on binary64
    floats, for the runs where rounding decides.

    Exceptions.  True division by zero raises [ZeroDivisionError]; every
    computation returns a [result].  The errors Python raises on values
    the reals do not have (an [int] too large for a [float], the sine of
    an infinity) are outside the model.

    The profile library.  Both programs import the module [gear] of the
    gear-profile-generator library: [gear.generate] builds the polygon of a
    gear and [gear.deg2rad] converts an angle.  The library is not part of
    the two files, so it is a parameter of the development: [gear.generate]
    is an arbitrary function that may read and change an ambient [World]
    (whatever hidden state a library call can reach) and may raise. *)

From Stdlib Require Import Reals Lra Lia ZArith List Sorted.
From Stdlib Require Ascii String.
From Stdlib Require PrimFloat Uint63.
Import ListNotations.
Open Scope R_scope.

(** ** Exceptions and results *)

Inductive exn : Type :=
| ZeroDivisionError
| IndexError
| LibraryError.

Inductive result (A : Type) : Type :=
| Ok (a : A)
| Raise (e : exn).
Arguments Ok {A} a.
Arguments Raise {A} e.

(** Python's [a / b] on floats (or on an int and a float): the divisor
    is compared with zero exactly. *)
Definition truediv (a b : R) : result R :=
  if Req_dec_T b 0 then Raise ZeroDivisionError else Ok (a / b).

(** [a > b] as the test of an [if], on the exact values. *)
Definition Rgtb (a b : R) : bool :=
  if Rgt_dec a b then true else false.

(** [math.radians]. *)
Definition radians (x : R) : R := x * (PI / 180).

(** [range(n)]. *)
Definition range (n : Z) : list Z := map Z.of_nat (seq 0 (Z.to_nat n)).

(** ** Computations: an ambient world and exceptions *)

Module Comp.
Section Comp.
Variable World : Type.

Definition M (A : Type) : Type := World -> result A * World.

Definition ret {A} (a : A) : M A := fun w => (Ok a, w).

Definition raise {A} (e : exn) : M A := fun w => (Raise e, w).

Definition bind {A B} (m : M A) (k : A -> M B) : M B :=
fun w => match m w with
         | (Ok a, w') => k a w'
         | (Raise e, w') => (Raise e, w')
         end.

Definition lift {A} (r : result A) : M A := fun w => (r, w).

(** A [for x in xs: ...] loop whose body updates a local value. *)
Fixpoint for_in {A S} (xs : list A) (body : A -> S -> M S) (s : S) : M S :=
match xs with
| [] => ret s
| x :: xs' => bind (body x s) (for_in xs' body)
end.
End Comp.
Arguments ret {World A} a.
Arguments raise {World A} e.
Arguments bind {World A B} m k.
Arguments lift {World A} r.
Arguments for_in {World A S} xs body s.
End Comp.
Import Comp.

Declare Scope comp_scope.
Delimit Scope comp_scope with comp.
Notation "x <- m ;; k" := (bind m (fun x => k))
  (at level 61, m at next level, right associativity) : comp_scope.
Notation "' p <- m ;; k" := (bind m (fun x => let p := x in k))
  (at level 61, p pattern, m at next level, right associativity) : comp_scope.

(** ** The interface of the profile library *)

Module gear.
(** The keyword arguments of [gear.generate]. *)
Record args : Type := Args {
  teeth_count : Z;
  tooth_width : R;
  pressure_angle : R;
  backlash : R;
  frame_count : Z
}.

(** Modelled from the spec: the pitch radius [gear.generate] returns.
    The function is not among the source files; section 4.1 of the
    specification gives its result ("pitchRadius returned matches
    module·teethCount/2 exactly") for a tooth width of pi times the
    module. *)
Definition spec_pitch_radius (a : args) : R :=
  tooth_width a / PI * IZR (teeth_count a) / 2.
End gear.

(** ** Points and rigid motions of the plotting and CAD libraries *)

Definition Vec3 : Type := (R * R * R)%type.
Definition vx (p : Vec3) : R := fst (fst p).
Definition vy (p : Vec3) : R := snd (fst p).
Definition vz (p : Vec3) : R := snd p.

(** [scipy.spatial.transform.Rotation]: a rotation matrix, by rows. *)
Record Rotation_ : Type := MkRotation { row0 : Vec3; row1 : Vec3; row2 : Vec3 }.

Definition dot (u v : Vec3) : R := vx u * vx v + vy u * vy v + vz u * vz v.

(** [R.from_euler('y', angle, degrees=True)]. *)
Definition from_euler_y (angle : R) : Rotation_ :=
  let a := radians angle in
  MkRotation (cos a, 0, sin a) (0, 1, 0) (- sin a, 0, cos a).

(** [rot.apply(p)]. *)
Definition apply (rot : Rotation_) (p : Vec3) : Vec3 :=
  (dot (row0 rot) p, dot (row1 rot) p, dot (row2 rot) p).

(** [Rhino.Geometry.Transform]: the two constructors the export uses. *)
Inductive Transform : Type :=
| Rotation (angle : R) (axis center : Vec3)
| Translation (dx dy dz : R).




(** ** bevel_gear_generator.py *)

Module bevel_gear_generator.

(** One entry of [BevelGear.sections]: the dict with the keys
    ['points'], ['z'], ['scale'] and ['radius']. *)
Record Section_ : Type := MkSection {
  points : list (R * R);
  z : R;
  scale : R;
  radius : R
}.

Record BevelGear : Type := MkBevelGear {
  module : R;
  teeth_number : Z;
  pressure_angle : R;
  cone_angle : R;
  face_width : R;
  clearance : R;
  backlash : R;
  profile_shift : R;
  frame_count : Z;
  tooth_width : R;
  pitch_radius : R;
  sections : list Section_
}.

Definition set_sections (self : BevelGear) (s : list Section_) : BevelGear :=
  MkBevelGear (module self) (teeth_number self) (pressure_angle self)
    (cone_angle self) (face_width self) (clearance self) (backlash self)
    (profile_shift self) (frame_count self) (tooth_width self)
    (pitch_radius self) s.

Section Program.
Variable World : Type.
Variable Polygon : Type.
(** [gear_poly.exterior.coords] as an array of points. *)
Variable exterior_coords : Polygon -> list (R * R).
Variable gear_generate : gear.args -> M World (Polygon * R).
Variable gear_deg2rad : R -> R.

Local Open Scope comp_scope.

(** The body of the loop of [_generate_sections] for the index [i]. *)
Definition section_body (self : BevelGear) (num_sections : Z)
    (apex_distance : R) (i : Z) (sections : list Section_)
    : M World (list Section_) :=
  t <- lift (truediv (IZR i) (IZR (num_sections - 1))) ;;
  let section_distance := apex_distance - t * face_width self in
  scale <- lift (truediv section_distance apex_distance) ;;
  let effective_module := module self * scale in
  let effective_radius := pitch_radius self * scale in
  if Rgtb scale (1 / 10) then
    let tooth_width := PI * effective_module in
    '(gear_poly, _) <- gear_generate
        (gear.Args (teeth_number self) tooth_width
           (gear_deg2rad (pressure_angle self)) (backlash self)
           (frame_count self)) ;;
    let points := exterior_coords gear_poly in
    let z := t * face_width self in
    ret (sections ++ [MkSection points z scale effective_radius])
  else ret sections.

Definition _generate_sections (self : BevelGear) (num_sections : Z)
    : M World (list Section_) :=
  let sections := [] in
  apex_distance <- lift (truediv (pitch_radius self)
                                 (sin (radians (cone_angle self)))) ;;
  for_in (range num_sections)
         (section_body self num_sections apex_distance) sections.

(** [BevelGear.__init__]; [profile_shift] is passed by no caller and
    keeps its default [0]. *)
Definition __init__ (module : R) (teeth_number : Z)
    (pressure_angle cone_angle face_width clearance backlash : R)
    (frame_count : Z) : M World BevelGear :=
  let self := MkBevelGear module teeth_number pressure_angle cone_angle
                face_width clearance backlash 0 frame_count
                (PI * module) (IZR teeth_number * module / 2) [] in
  sections <- _generate_sections self 10 ;;
  ret (set_sections self sections).

(** [BevelGear.get_3d_points]: every section lifted to its plane
    [z]. *)
Definition get_3d_points (self : BevelGear) : list (list Vec3) :=
  map (fun section =>
         map (fun p => (fst p, snd p, z section)) (points section))
      (sections self).

(** [visualize_bevel_gears] up to the plotted lines: the blue lines
    of the first gear and the red lines of the second one.  The axes
    limits, labels and title are left out. *)
Record Figure : Type := MkFigure {
  blue : list (list Vec3);
  red : list (list Vec3)
}.

Definition visualize_bevel_gears (gear1 gear2 : BevelGear)
    : M World Figure :=
  let sections1 := get_3d_points gear1 in
  apex_distance <- lift (truediv (pitch_radius gear1)
                                 (sin (radians (cone_angle gear1)))) ;;
  let sections2 := get_3d_points gear2 in
  let rot := from_euler_y 90 in
  let moved :=
    map (fun section =>
           let rotated := map (apply rot) section in
           map (fun p => (vx p + apex_distance, vy p, vz p)) rotated)
        sections2 in
  ret (MkFigure sections1 moved).

(** The Rhino side of the export.  [create_rhino_bevel_gear] lofts
    the sections into a solid with Rhino calls only; its result is
    kept abstract and may be [None]. *)
Variable Brep : Type.
Variable create_rhino_bevel_gear : BevelGear -> R -> option Brep.

(** What [export_bevel_gears] has built when it reaches the file
    output: both gears, the solid of the first one and the solid of
    the second one with the transforms applied to it, in order. *)
Record Export : Type := MkExport {
  exp_gear1 : BevelGear;
  exp_gear2 : BevelGear;
  exp_brep1 : option Brep;
  exp_brep2 : option (Brep * list Transform)
}.

(** [export_bevel_gears] from its start to the placement of the
    second gear; writing the file is left out. *)
Definition export_bevel_gears (RHINO_AVAILABLE : bool) (module : R)
    (teeth1 teeth2 : Z)
    (pressure_angle cone_angle face_width clearance backlash : R)
    (frame_count : Z) : M World (option Export) :=
  if negb RHINO_AVAILABLE then ret None else
  gear1 <- __init__ module teeth1 pressure_angle cone_angle face_width
             clearance backlash frame_count ;;
  gear2 <- __init__ module teeth2 pressure_angle (90 - cone_angle)
             face_width clearance backlash frame_count ;;
  let brep1 := create_rhino_bevel_gear gear1 (module * 2) in
  let brep2 := create_rhino_bevel_gear gear2 (module * 2) in
  brep2 <- match brep2 with
           | Some b =>
               let rotation := Rotation (PI / 2) (0, 1, 0) (0, 0, 0) in
               apex_distance1 <-
                 lift (truediv (pitch_radius gear1)
                               (sin (radians
                                  (bevel_gear_generator.cone_angle gear1)))) ;;
               let translation := Translation apex_distance1 0 0 in
               ret (Some (b, [rotation; translation]))
           | None => ret None
           end ;;
  ret (Some (MkExport gear1 gear2 brep1 brep2)).

(** The command line of [main], after parsing. *)
Record Namespace : Type := MkNamespace {
  args_module : R;
  args_teeth1 : Z;
  args_teeth2 : Z;
  args_pressure_angle : R;
  args_cone_angle : R;
  args_face_width : R;
  args_backlash : R;
  args_clearance : R;
  args_save_image : bool;
  args_frame_count : Z;
  args_show : bool
}.

(** [main] from the construction of the two gears to the figure;
    [args_save_image] is the truth value of the option.  Saving,
    showing and the export call are left out. *)
Definition main (args : Namespace)
    : M World (BevelGear * BevelGear * option Figure) :=
  gear1 <- __init__ (args_module args) (args_teeth1 args)
             (args_pressure_angle args) (args_cone_angle args)
             (args_face_width args) (args_clearance args)
             (args_backlash args) (args_frame_count args) ;;
  gear2 <- __init__ (args_module args) (args_teeth2 args)
             (args_pressure_angle args) (90 - args_cone_angle args)
             (args_face_width args) (args_clearance args)
             (args_backlash args) (args_frame_count args) ;;
  if (args_show args || args_save_image args)%bool then
    fig <- visualize_bevel_gears gear1 gear2 ;;
    ret (gear1, gear2, Some fig)
  else ret (gear1, gear2, None).

End Program.
End bevel_gear_generator.

(** ** gear_generator.py *)

(** [matplotlib.transforms.Affine2D]: the first two rows of its matrix. *)
Record Affine2D : Type := MkAffine2D {
  m00 : R; m01 : R; m02 : R;
  m10 : R; m11 : R; m12 : R
}.

Definition Affine2D_identity : Affine2D := MkAffine2D 1 0 0 0 1 0.

(** [.rotate(theta)]: the rotation matrix multiplies from the left. *)
Definition rotate (theta : R) (m : Affine2D) : Affine2D :=
  let a := cos theta in
  let b := sin theta in
  MkAffine2D (a * m00 m - b * m10 m) (a * m01 m - b * m11 m)
             (a * m02 m - b * m12 m)
             (b * m00 m + a * m10 m) (b * m01 m + a * m11 m)
             (b * m02 m + a * m12 m).

(** [.translate(tx, ty)]. *)
Definition translate (tx ty : R) (m : Affine2D) : Affine2D :=
  MkAffine2D (m00 m) (m01 m) (m02 m + tx) (m10 m) (m11 m) (m12 m + ty).

(** The point of the data plane a vertex [(x, y)] is drawn at. *)
Definition transform_vertex (m : Affine2D) (p : R * R) : R * R :=
  (m00 m * fst p + m01 m * snd p + m02 m,
   m10 m * fst p + m11 m * snd p + m12 m).

(** [matplotlib.path.Path] codes. *)
Inductive code : Type := MOVETO | LINETO | CLOSEPOLY.

(** [np.linspace(start, stop, num)]. *)
Definition linspace (start stop : R) (num : nat) : list R :=
  map (fun k => start + INR k * ((stop - start) / INR (num - 1)))
      (seq 0 num).

Module gear_generator.

Section Program.
Variable World : Type.
Variable Polygon : Type.
Variable exterior_coords : Polygon -> list (R * R).
Variable gear_generate : gear.args -> M World (Polygon * R).
Variable gear_deg2rad : R -> R.

Record InvoluteGear : Type := MkInvoluteGear {
  module : R;
  teeth_number : Z;
  pressure_angle : R;
  clearance : R;
  backlash : R;
  profile_shift : R;
  tooth_width : R;
  gear_poly : Polygon;
  pitch_radius : R
}.

Local Open Scope comp_scope.

(** [InvoluteGear.__init__]. *)
Definition __init__ (module : R) (teeth_number : Z)
    (pressure_angle clearance backlash profile_shift : R)
    : M World InvoluteGear :=
  let tooth_width := PI * module in
  '(gear_poly, pitch_radius) <- gear_generate
      (gear.Args teeth_number tooth_width (gear_deg2rad pressure_angle)
         backlash 32) ;;
  ret (MkInvoluteGear module teeth_number pressure_angle clearance
         backlash profile_shift tooth_width gear_poly pitch_radius).

(** [InvoluteGear.points]. *)
Definition points (self : InvoluteGear) : list (R * R) :=
  exterior_coords (gear_poly self).

(** A patch of the axes: the vertices and drawing codes of its path
    and the transform from its vertices to the data plane; colours
    and line widths are left out. *)
Record PathPatch : Type := MkPathPatch {
  vertices : list (R * R);
  codes : list code;
  transform : Affine2D
}.

Definition create_gear_patch (gear : InvoluteGear) (hole_radius : R)
    : result (PathPatch * R) :=
  let points := points gear in
  let codes := map (fun i => if Nat.eqb i 0 then MOVETO else LINETO)
                   (seq 0 (length points)) in
  let vertices := points in
  let codes := codes ++ [CLOSEPOLY] in
  match vertices with
  | [] => Raise IndexError
  | first :: _ =>
      let vertices := vertices ++ [first] in
      let theta := linspace 0 (2 * PI) 50 in
      let codes := codes ++ map (fun i => if Nat.eqb i 0 then MOVETO
                                          else LINETO)
                                (seq 0 (length theta)) in
      let vertices :=
        vertices ++ map (fun t => (hole_radius * cos t,
                                   hole_radius * sin t)) theta in
      let codes := codes ++ [CLOSEPOLY] in
      let vertices := vertices ++ [(hole_radius, 0)] in
      Ok (MkPathPatch vertices codes Affine2D_identity,
          pitch_radius gear)
  end.

(** The placement both [export_gears_only] and [main] compute, and the
    patches they add to the axes, in order. *)
Record Placement : Type := MkPlacement {
  center_distance : R;
  rotation_angle : R;
  patches : list PathPatch
}.

(** [export_gears_only] from its start to the second patch; the axes
    limits and the file output are left out. *)
Definition export_gears_only (module : R) (teeth1 teeth2 : Z)
    (pressure_angle clearance backlash : R) : M World Placement :=
  gear1_obj <- __init__ module teeth1 pressure_angle clearance
                 backlash 0 ;;
  '(gear1, pitch_radius1) <- lift (create_gear_patch gear1_obj 3) ;;
  gear2_obj <- __init__ module teeth2 pressure_angle clearance
                 backlash 0 ;;
  let center_distance :=
    pitch_radius gear1_obj + pitch_radius gear2_obj in
  rotation_angle <- lift (truediv PI (IZR teeth2)) ;;
  '(gear2, pitch_radius2) <-
    lift (create_gear_patch gear2_obj (3 / 2)) ;;
  let transform :=
    translate center_distance 0
      (rotate rotation_angle Affine2D_identity) in
  ret (MkPlacement center_distance rotation_angle
         [gear1; MkPathPatch (vertices gear2) (codes gear2) transform]).

(** The command line of [main], after parsing; [args_save] is the
    truth value of the option. *)
Record Namespace : Type := MkNamespace {
  args_module : R;
  args_teeth1 : Z;
  args_teeth2 : Z;
  args_pressure_angle : R;
  args_backlash : R;
  args_clearance : R;
  args_save : bool;
  args_gears_only : bool
}.

(** [main] to the second patch, on either branch. *)
Definition main (args : Namespace) : M World Placement :=
  if (args_gears_only args && args_save args)%bool then
    export_gears_only (args_module args) (args_teeth1 args)
      (args_teeth2 args) (args_pressure_angle args)
      (args_clearance args) (args_backlash args)
  else
    let module := args_module args in
    let pressure_angle := args_pressure_angle args in
    let num_teeth1 := args_teeth1 args in
    gear1_obj <- __init__ module num_teeth1 pressure_angle
                   (args_clearance args) (args_backlash args) 0 ;;
    '(gear1, pitch_radius1) <- lift (create_gear_patch gear1_obj 3) ;;
    let num_teeth2 := args_teeth2 args in
    gear2_obj <- __init__ module num_teeth2 pressure_angle
                   (args_clearance args) (args_backlash args) 0 ;;
    let center_distance :=
      pitch_radius gear1_obj + pitch_radius gear2_obj in
    rotation_angle <- lift (truediv PI (IZR num_teeth2)) ;;
    '(gear2, pitch_radius2) <-
      lift (create_gear_patch gear2_obj (3 / 2)) ;;
    let transform :=
      translate center_distance 0
        (rotate rotation_angle Affine2D_identity) in
    ret (MkPlacement center_distance rotation_angle
           [gear1; MkPathPatch (vertices gear2) (codes gear2) transform]).

End Program.
End gear_generator.

(** ** Section 4.3 of the specification, in its words *)

Module Spec.
Record BevelSection : Type := MkBevelSection {
  sectionDistanceFromApex : R;
  scale : R;
  effectiveModule : R;
  effectiveRadius : R;
  axialOffset : R
}.

Definition apexDistance (pitchRadiusLargeEnd coneAngleDeg : R) : R :=
  pitchRadiusLargeEnd / sin (coneAngleDeg * PI / 180).

Definition section (module pitchRadius coneAngleDeg faceWidth : R)
    (sectionCount i : Z) : BevelSection :=
  let apex := apexDistance pitchRadius coneAngleDeg in
  let t := IZR i / IZR (sectionCount - 1) in
  let d := apex - t * faceWidth in
  let scale := d / apex in
  MkBevelSection d scale (module * scale) (pitchRadius * scale)
                 (t * faceWidth).
End Spec.

(** ** What a run of the section loop leaves behind *)

Section Stack.
Import bevel_gear_generator.
Variable World : Type.
Variable Polygon : Type.
Variable exterior_coords : Polygon -> list (R * R).
Variable gear_generate : gear.args -> M World (Polygon * R).
Variable gear_deg2rad : R -> R.

(** The section the specification describes for the index [i] of a
    stack of [n] sections of the gear [self]. *)
Definition spec_section (self : BevelGear) (n i : Z) : Spec.BevelSection :=
  Spec.section (module self) (pitch_radius self) (cone_angle self)
               (face_width self) n i.

(** The apex distance of the gear [self]. *)
Definition apex_of (self : BevelGear) : R :=
  Spec.apexDistance (pitch_radius self) (cone_angle self).

(** The index [i] passes the test [scale > 0.1]. *)
Definition kept (self : BevelGear) (n i : Z) : bool :=
  Rgtb (Spec.scale (spec_section self n i)) (1 / 10).

(** The arguments of the library call for a section of module
    [effective_module]. *)
Definition profile_call (self : BevelGear) (effective_module : R)
    : gear.args :=
  gear.Args (teeth_number self) (PI * effective_module)
            (gear_deg2rad (pressure_angle self)) (backlash self)
            (frame_count self).

(** The entry [s] of the stack is the section of index [i]: its
    scalars are the specified ones and its points are the exterior of a
    polygon the library returned for the effective module. *)
Definition emitted (self : BevelGear) (n i : Z) (s : Section_) : Prop :=
  let b := spec_section self n i in
  z s = Spec.axialOffset b /\
  scale s = Spec.scale b /\
  radius s = Spec.effectiveRadius b /\
  exists w poly r w',
    gear_generate (profile_call self (Spec.effectiveModule b)) w
      = (Ok (poly, r), w') /\
    points s = exterior_coords poly.

(** The library call never raises. *)
Definition generate_returns : Prop :=
  forall a w, exists p w', gear_generate a w = (Ok p, w').

(** The library call returns the pitch radius the specification
    gives. *)
Definition generate_as_specified : Prop :=
  forall a w p r w',
    gear_generate a w = (Ok (p, r), w') -> r = gear.spec_pitch_radius a.

(** Every polygon the library returns has a vertex. *)
Definition polygons_not_empty : Prop :=
  forall a w p r w',
    gear_generate a w = (Ok (p, r), w') -> exterior_coords p <> [].

End Stack.

(** ** The scalars of the section loop in binary64

    Python's [float] is the binary64 format.  The loop of
    [_generate_sections] is repeated here on the floats of the kernel, for
    the scalars of the sections alone: the profile call and the points
    are left out, and the value of [math.sin(math.radians(cone_angle))],
    which the C library computes, is an argument.  Runs of this loop show
    where rounding parts the program from the exact arithmetic of the
    model above. *)

Module binary64.
Import PrimFloat.
Local Open Scope float_scope.
#[local] Set Warnings "-inexact-float".

(** A Python [int] that meets a [float]; exact for the counts and
    indices of the programs. *)
Definition of_int (i : Z) : float := of_uint63 (Uint63.of_Z i).

(** Python's [a / b] on floats. *)
Definition truediv (a b : float) : result float :=
  if eqb b 0 then Raise ZeroDivisionError else Ok (a / b).

(** The keys ['z'], ['scale'] and ['radius'] of an entry of
    [BevelGear.sections]. *)
Record Scalars : Type := MkScalars {
  z : float;
  scale : float;
  radius : float
}.

(** The body of the loop of [_generate_sections] for the index [i]. *)
Definition section_body (module pitch_radius face_width : float)
    (num_sections : Z) (apex_distance : float) (i : Z)
    (sections : list Scalars) : result (list Scalars) :=
  match truediv (of_int i) (of_int (num_sections - 1)) with
  | Raise e => Raise e
  | Ok t =>
      let section_distance := apex_distance - t * face_width in
      match truediv section_distance apex_distance with
      | Raise e => Raise e
      | Ok scale =>
          let effective_module := module * scale in
          let effective_radius := pitch_radius * scale in
          if ltb 0.1 scale then
            let z := t * face_width in
            Ok (sections ++ [MkScalars z scale effective_radius])
          else Ok sections
      end
  end.

Fixpoint for_in (xs : list Z)
    (body : Z -> list Scalars -> result (list Scalars))
    (s : list Scalars) : result (list Scalars) :=
  match xs with
  | [] => Ok s
  | x :: xs' => match body x s with
                | Ok s' => for_in xs' body s'
                | Raise e => Raise e
                end
  end.

(** [_generate_sections]; [sin_cone] is the value of
    [math.sin(math.radians(self.cone_angle))]. *)
Definition _generate_sections
    (module pitch_radius face_width sin_cone : float) (num_sections : Z)
    : result (list Scalars) :=
  match truediv pitch_radius sin_cone with
  | Raise e => Raise e
  | Ok apex_distance =>
      for_in (range num_sections)
             (section_body module pitch_radius face_width num_sections
                           apex_distance) []
  end.

(** The stack [BevelGear.__init__] leaves in [self.sections]. *)
Definition __init__ (module : float) (teeth_number : Z)
    (face_width sin_cone : float) : result (list Scalars) :=
  _generate_sections module (of_int teeth_number * module / 2) face_width
                     sin_cone 10.
End binary64.

(** ** The cones of the gears in space

    [get_3d_points] stacks the sections of a gear along the third
    coordinate: this is the axis of the gear, and the centre of its large
    end is the origin.  The scale of a section at the axial offset [z] is
    [(apex - z) / apex], so the cone closes where [z] is the apex
    distance. *)

Definition gear_axis : Vec3 := (0, 0, 1).

Definition cone_apex (g : bevel_gear_generator.BevelGear) : Vec3 :=
  (0, 0, apex_of g).

(** ** A stand-in for the profile library

    To run the programs on concrete inputs the library is replaced by a
    stand-in: it returns the square inscribed in the pitch circle the
    specification names (tooth width over pi, times the tooth count, over
    two) and appends its arguments to the world, which is thus the log of
    the calls made so far. *)

Module Demo.
Definition World : Type := list gear.args.
Definition Polygon : Type := list (R * R).
Definition exterior_coords (p : Polygon) : list (R * R) := p.

Definition square (r : R) : Polygon := [(r, 0); (0, r); (- r, 0); (0, - r)].

Definition generate (a : gear.args) : M World (Polygon * R) :=
  fun w => (Ok (square (gear.spec_pitch_radius a), gear.spec_pitch_radius a),
            w ++ [a]).

Definition deg2rad (x : R) : R := radians x.

(** The programs over the stand-in. *)
Definition BevelGear__init__ :=
  bevel_gear_generator.__init__ World Polygon exterior_coords generate
    deg2rad.
Definition bevel_main :=
  bevel_gear_generator.main World Polygon exterior_coords generate deg2rad.
Definition InvoluteGear__init__ :=
  gear_generator.__init__ World Polygon generate deg2rad.
Definition export_gears_only :=
  gear_generator.export_gears_only World Polygon exterior_coords generate
    deg2rad.

(** A stand-in for Rhino: every gear lofts into the one solid. *)
Definition Brep : Type := unit.
Definition create_rhino_bevel_gear
    (g : bevel_gear_generator.BevelGear) (hole_radius : R) : option Brep :=
  Some tt.
Definition export_bevel_gears :=
  bevel_gear_generator.export_bevel_gears World Polygon exterior_coords
    generate deg2rad Brep create_rhino_bevel_gear.

(** The command line of the bevel program with its defaults. *)
Definition bevel_defaults : bevel_gear_generator.Namespace :=
  bevel_gear_generator.MkNamespace 5 20 20 20 45 15 0 (1 / 4) false 16 true.
End Demo.

(** ** The rest of the two programs

    What the programs do after the placements: the limits of the view of
    the spur gears, the name of the file of the bevel export and the
    writing of that file. *)

(** The limits [export_gears_only] and [main] set on the axes of the spur
    gears: [ax.set_xlim] and [ax.set_ylim] with [margin = 1.2]. *)
Record Limits : Type := MkLimits {
  xlim : R * R;
  ylim : R * R
}.

Definition set_limits (pitch_radius1 pitch_radius2 center_distance : R)
    : Limits :=
  let margin := 12 / 10 in
  MkLimits (- pitch_radius1 * margin, center_distance + pitch_radius2 * margin)
           (- pitch_radius1 * margin, pitch_radius1 * margin).

(** A point of the plane lies within the limits. *)
Definition in_view (l : Limits) (p : R * R) : Prop :=
  fst (xlim l) <= fst p <= snd (xlim l) /\
  fst (ylim l) <= snd p <= snd (ylim l).

(** Python strings, as byte strings with the case of ASCII letters. *)
Module str.
Import Ascii String.

(** [c.lower()] for one character. *)
Definition lower_char (c : ascii) : ascii :=
  let n := N_of_ascii c in
  if (N.leb 65 n && N.leb n 90)%bool then ascii_of_N (n + 32) else c.

(** [s.lower()]. *)
Fixpoint lower (s : string) : string :=
  match s with
  | EmptyString => EmptyString
  | String c s' => String (lower_char c) (lower s')
  end.

(** [s.endswith(suffix)]. *)
Fixpoint endswith (s suffix : string) : bool :=
  if String.eqb s suffix then true
  else match s with
       | EmptyString => false
       | String _ s' => endswith s' suffix
       end.

(** The truth value of a string. *)
Definition truthy (s : string) : bool :=
  match s with EmptyString => false | String _ _ => true end.
End str.

Module bevel_export.
Import Ascii String.

(** The name [main] hands to [export_bevel_gears]: [args.save] with
    ['.3dm'] added unless it ends with it in some case; there is no
    export when the option is absent or empty. *)
Definition main_save (save : option string) : option string :=
  match save with
  | None => None
  | Some save =>
      if str.truthy save then
        if negb (str.endswith (str.lower save) ".3dm")
        then Some (save ++ ".3dm")%string
        else Some save
      else None
  end.

(** How [export_bevel_gears] ends once the gears are placed: the objects
    of the file it wrote, or the [NameError] of the name [System], which
    the program never binds (it imports [Rhino] and [Rhino.Geometry]
    only). *)
Inductive outcome (Brep : Type) : Type :=
| Wrote (filename : string) (objects : list (Brep * list Transform))
| NameError.
Arguments Wrote {Brep} filename objects.
Arguments NameError {Brep}.

Section File.
Variable Brep : Type.

(** [export_bevel_gears] from the new [File3dm] to the end. *)
Definition write_file (e : bevel_gear_generator.Export Brep)
    (filename : string) : outcome Brep :=
  let file3dm : list (Brep * list Transform) := nil in
  match bevel_gear_generator.exp_brep1 Brep e with
  | Some brep1 =>
      (* attr1.ObjectColor = System.Drawing.Color.LightGray *)
      NameError
  | None =>
      match bevel_gear_generator.exp_brep2 Brep e with
      | Some brep2 =>
          (* attr2.ObjectColor = System.Drawing.Color.DarkGray *)
          NameError
      | None => Wrote filename file3dm
      end
  end.
End File.
End bevel_export.

(** * Properties *)

(** ** Arithmetic of the model *)

Lemma truediv_Ok a b : b <> 0 -> truediv a b = Ok (a / b).
Proof. intros H. unfold truediv. destruct (Req_dec_T b 0); [contradiction | reflexivity]. Qed.

Lemma truediv_zero a : truediv a 0 = Raise ZeroDivisionError.
Proof. unfold truediv. destruct (Req_dec_T 0 0); [reflexivity | contradiction]. Qed.

Lemma truediv_inv a b c : truediv a b = Ok c -> b <> 0 /\ c = a / b.
Proof.
  unfold truediv. destruct (Req_dec_T b 0); intros H; inversion H; auto.
Qed.

Lemma Rgtb_true a b : Rgtb a b = true <-> a > b.
Proof. unfold Rgtb. destruct (Rgt_dec a b); split; auto; discriminate. Qed.

Lemma Rgtb_false a b : Rgtb a b = false <-> a <= b.
Proof.
  unfold Rgtb. destruct (Rgt_dec a b); split; auto; try discriminate; lra.
Qed.

Lemma radians_spec x : radians x = x * PI / 180.
Proof. unfold radians. field. Qed.

(** The sine of a cone angle in (0, 90] degrees is positive. *)
Lemma sin_cone_pos x : 0 < x <= 90 -> 0 < sin (radians x).
Proof.
  intros [H0 H90]. pose proof PI_RGT_0 as Hpi. unfold radians.
  apply sin_gt_0; nra.
Qed.

Lemma range_succ n : (0 <= n)%Z -> range (n + 1) = range n ++ [n].
Proof.
  intros H. unfold range.
  replace (Z.to_nat (n + 1)) with (S (Z.to_nat n)) by lia.
  rewrite seq_S, map_app. simpl. rewrite Z2Nat.id by lia. reflexivity.
Qed.

Lemma range_In n i : In i (range n) <-> (0 <= i < n)%Z.
Proof.
  unfold range. rewrite in_map_iff. split.
  - intros [k [<- Hk]]. apply in_seq in Hk. lia.
  - intros H. exists (Z.to_nat i). split; [lia |]. apply in_seq. lia.
Qed.

Lemma range_sorted n : StronglySorted Z.lt (range n).
Proof.
  unfold range. generalize 0%nat. induction (Z.to_nat n) as [|k IH]; intros s; simpl.
  - constructor.
  - constructor; [apply IH |].
    apply Forall_forall. intros x Hx. apply in_map_iff in Hx.
    destruct Hx as [j [<- Hj]]. apply in_seq in Hj. lia.
Qed.

(** ** Lists: sorted sublists and sorted images *)

Lemma filter_StronglySorted {A} (lt : A -> A -> Prop) (f : A -> bool) l :
  StronglySorted lt l -> StronglySorted lt (filter f l).
Proof.
  induction 1 as [|a l Hs IH Hall]; simpl; [constructor |].
  destruct (f a); [| exact IH].
  constructor; [exact IH |].
  apply Forall_forall. intros x Hx. apply filter_In in Hx.
  rewrite Forall_forall in Hall. apply Hall, Hx.
Qed.

Lemma Forall2_In_r {A B} (P : A -> B -> Prop) l l' b :
  Forall2 P l l' -> In b l' -> exists a, In a l /\ P a b.
Proof.
  induction 1 as [|x y l l' Hxy _ IH]; simpl; [contradiction |].
  intros [<- | Hb].
  - exists x. auto.
  - destruct (IH Hb) as [a [Ha Hp]]. exists a. auto.
Qed.

Lemma Forall2_StronglySorted {A B} (P : A -> B -> Prop)
    (ltA : A -> A -> Prop) (ltB : B -> B -> Prop) l l' :
  (forall a a' b b', In a l -> In a' l -> ltA a a' -> P a b -> P a' b' ->
                     ltB b b') ->
  Forall2 P l l' -> StronglySorted ltA l -> StronglySorted ltB l'.
Proof.
  intros Hmono HF. induction HF as [|x y l l' Hxy HF IH]; intros Hs.
  - constructor.
  - inversion Hs as [|? ? Hs' Hall]; subst. constructor.
    + apply IH; [| exact Hs'].
      intros a a' b b' Ha Ha'. apply Hmono; right; assumption.
    + apply Forall_forall. intros b Hb.
      destruct (Forall2_In_r _ _ _ _ HF Hb) as [a [Ha Hp]].
      rewrite Forall_forall in Hall.
      apply (Hmono x a y b); simpl; auto.
Qed.

(** ** The section loop *)

Section Loop.
Import bevel_gear_generator.
Variable World : Type.
Variable Polygon : Type.
Variable exterior_coords : Polygon -> list (R * R).
Variable gear_generate : gear.args -> M World (Polygon * R).
Variable gear_deg2rad : R -> R.

Let body := section_body World Polygon exterior_coords gear_generate
                         gear_deg2rad.
Let generate_sections := _generate_sections World Polygon exterior_coords
                           gear_generate gear_deg2rad.
Let is_emitted := emitted World Polygon exterior_coords gear_generate
                          gear_deg2rad.

Lemma apex_of_eq self :
  apex_of self = pitch_radius self / sin (radians (cone_angle self)).
Proof.
  unfold apex_of, Spec.apexDistance. rewrite radians_spec. reflexivity.
Qed.

(** One turn of the loop that does not raise: a kept index appends its
    section, a dropped index changes nothing. *)
Lemma section_body_inv self n i acc w secs w' :
  body self n (apex_of self) i acc w = (Ok secs, w') ->
  IZR (n - 1) <> 0 /\ apex_of self <> 0 /\
  if kept self n i
  then exists s, secs = acc ++ [s] /\ is_emitted self n i s
  else secs = acc /\ w' = w.
Proof.
  unfold body, section_body, bind, lift, ret, kept, spec_section,
    Spec.section. cbn [Spec.scale]. fold (apex_of self).
  unfold truediv at 1.
  destruct (Req_dec_T (IZR (n - 1)) 0) as [|Hn]; [discriminate |].
  unfold truediv.
  destruct (Req_dec_T (apex_of self) 0) as [|Ha]; [discriminate |].
  destruct (Rgtb _ _) eqn:Hk.
  - destruct (gear_generate _ w) as [[[poly r]|e] w1] eqn:Hg;
      [| discriminate].
    intros H. inversion H; subst. repeat split; auto.
    eexists. split; [reflexivity |].
    unfold is_emitted, emitted, spec_section, Spec.section, profile_call.
    cbn. fold (apex_of self). repeat split.
    exists w, poly, r, w'. split; [exact Hg | reflexivity].
  - intros H. inversion H; subst. auto.
Qed.

(** One turn of the loop returns when neither division is by zero and
    the library returns. *)
Lemma section_body_returns self n i acc w :
  IZR (n - 1) <> 0 -> apex_of self <> 0 ->
  generate_returns World Polygon gear_generate ->
  exists secs w', body self n (apex_of self) i acc w = (Ok secs, w').
Proof.
  intros Hn Ha Hgen.
  unfold body, section_body, bind, lift, ret.
  rewrite (truediv_Ok _ _ Hn), (truediv_Ok _ _ Ha).
  destruct (Rgtb _ _).
  - match goal with |- context [gear_generate ?a w] =>
      destruct (Hgen a w) as [[poly r] [w1 Hg]]; rewrite Hg end.
    eauto.
  - eauto.
Qed.

Lemma for_in_sections_inv self n idx acc w secs w' :
  for_in idx (body self n (apex_of self)) acc w = (Ok secs, w') ->
  (idx <> [] -> IZR (n - 1) <> 0 /\ apex_of self <> 0) /\
  exists new, secs = acc ++ new /\
    Forall2 (is_emitted self n) (filter (kept self n) idx) new.
Proof.
  revert acc w. induction idx as [|i idx IH]; intros acc w; simpl.
  - unfold ret. intros H. inversion H; subst. split; [congruence |].
    exists []. rewrite app_nil_r. split; [reflexivity | constructor].
  - unfold bind at 1.
    destruct (body self n (apex_of self) i acc w) as [[acc1|e] w1] eqn:Hb;
      [| discriminate].
    intros Hrest. apply section_body_inv in Hb.
    destruct Hb as [Hn [Ha Hb]]. apply IH in Hrest.
    destruct Hrest as [_ [new [-> HF]]]. split; [auto |].
    destruct (kept self n i).
    + destruct Hb as [s [-> Hs]]. exists (s :: new).
      rewrite <- app_assoc. split; [reflexivity |]. constructor; assumption.
    + destruct Hb as [-> _]. exists new. auto.
Qed.

Lemma for_in_sections_returns self n idx acc w :
  IZR (n - 1) <> 0 -> apex_of self <> 0 ->
  generate_returns World Polygon gear_generate ->
  exists secs w',
    for_in idx (body self n (apex_of self)) acc w = (Ok secs, w').
Proof.
  intros Hn Ha Hgen. revert acc w.
  induction idx as [|i idx IH]; intros acc w; simpl.
  - unfold ret. eauto.
  - unfold bind at 1.
    destruct (section_body_returns self n i acc w Hn Ha Hgen)
      as [acc1 [w1 Hb]].
    rewrite Hb. apply IH.
Qed.

(** A stack that [_generate_sections] returns holds, in the order of
    the indices, the sections of the indices that pass the test. *)
Lemma generate_sections_inv self n w secs w' :
  generate_sections self n w = (Ok secs, w') ->
  sin (radians (cone_angle self)) <> 0 /\
  ((0 < n)%Z -> n <> 1%Z /\ apex_of self <> 0) /\
  Forall2 (is_emitted self n) (filter (kept self n) (range n)) secs.
Proof.
  unfold generate_sections, _generate_sections, bind at 1, lift.
  destruct (truediv _ _) as [apex|e] eqn:Hd; [| discriminate].
  apply truediv_inv in Hd. destruct Hd as [Hs ->].
  rewrite <- apex_of_eq. intros H.
  apply (for_in_sections_inv self n) in H.
  destruct H as [Hne [new [-> HF]]]. split; [exact Hs |]. split; [| exact HF].
  intros Hn. destruct Hne as [Hn1 Ha].
  - unfold range. destruct (Z.to_nat n) eqn:E; [lia | discriminate].
  - split; [| exact Ha]. intros ->. apply Hn1. reflexivity.
Qed.

Lemma generate_sections_returns self n w :
  sin (radians (cone_angle self)) <> 0 ->
  n <> 1%Z -> pitch_radius self <> 0 ->
  generate_returns World Polygon gear_generate ->
  exists secs w', generate_sections self n w = (Ok secs, w').
Proof.
  intros Hs Hn Hp Hgen.
  unfold generate_sections, _generate_sections, bind at 1, lift.
  rewrite (truediv_Ok _ _ Hs), <- apex_of_eq.
  apply for_in_sections_returns; auto.
  - intros H. apply eq_IZR_R0 in H. lia.
  - rewrite apex_of_eq. intros H.
    apply Rmult_integral in H. destruct H as [H|H]; [auto |].
    apply Rinv_neq_0_compat in Hs. auto.
Qed.

End Loop.

(** ** The constructor of a bevel gear *)

Section Bevel.
Import bevel_gear_generator.
Variable World : Type.
Variable Polygon : Type.
Variable exterior_coords : Polygon -> list (R * R).
Variable gear_generate : gear.args -> M World (Polygon * R).
Variable gear_deg2rad : R -> R.

Let init := __init__ World Polygon exterior_coords gear_generate
                     gear_deg2rad.
Let is_emitted := emitted World Polygon exterior_coords gear_generate
                          gear_deg2rad.
Let returns := generate_returns World Polygon gear_generate.

(** A gear that [__init__] returns carries the arguments, the two
    derived scalars and the stack of the kept indices. *)
Lemma init_inv m t pa c fw cl bl fc w g w' :
  init m t pa c fw cl bl fc w = (Ok g, w') ->
  g = MkBevelGear m t pa c fw cl bl 0 fc (PI * m) (IZR t * m / 2)
                  (sections g) /\
  sin (radians c) <> 0 /\ apex_of g <> 0 /\
  Forall2 (is_emitted g 10) (filter (kept g 10) (range 10)) (sections g).
Proof.
  unfold init, __init__, bind at 1.
  match goal with |- context [_generate_sections _ _ _ _ _ ?s _ w] =>
    set (self := s);
    destruct (_generate_sections World Polygon exterior_coords gear_generate
                gear_deg2rad self 10 w) as [[secs|e] w1] eqn:Hg end;
    [| discriminate].
  unfold ret. intros H. inversion H; subst. clear H.
  apply generate_sections_inv in Hg. destruct Hg as [Hs [Hn HF]].
  cbn. split; [reflexivity |]. split; [exact Hs |].
  split; [apply Hn; lia | exact HF].
Qed.

Lemma init_returns m t pa c fw cl bl fc w :
  sin (radians c) <> 0 -> IZR t * m <> 0 -> returns ->
  exists g w', init m t pa c fw cl bl fc w = (Ok g, w').
Proof.
  intros Hs Hp Hgen. unfold init, __init__, bind at 1.
  match goal with |- context [_generate_sections _ _ _ _ _ ?s _ w] =>
    assert (Hg : exists secs w1,
               _generate_sections World Polygon exterior_coords gear_generate
                 gear_deg2rad s 10 w = (Ok secs, w1)) end.
  { apply generate_sections_returns; cbn; auto; try lia; lra. }
  destruct Hg as [secs [w1 Hg]]. rewrite Hg. unfold ret. eauto.
Qed.

End Bevel.

(** ** The scalars of the sections *)

Section Scalars.
Import bevel_gear_generator.
Variable self : BevelGear.
Variable n : Z.
Hypothesis n_gt_1 : (1 < n)%Z.

Let a := apex_of self.
Let fw := face_width self.

Lemma sections_pos : 0 < IZR (n - 1).
Proof. apply IZR_lt. lia. Qed.

Lemma axialOffset_eq i :
  Spec.axialOffset (spec_section self n i) = IZR i / IZR (n - 1) * fw.
Proof. reflexivity. Qed.

Lemma scale_eq i :
  Spec.scale (spec_section self n i) = (a - IZR i / IZR (n - 1) * fw) / a.
Proof. reflexivity. Qed.

Lemma effectiveRadius_eq i :
  Spec.effectiveRadius (spec_section self n i)
  = pitch_radius self * Spec.scale (spec_section self n i).
Proof. reflexivity. Qed.

Lemma effectiveModule_eq i :
  Spec.effectiveModule (spec_section self n i)
  = module self * Spec.scale (spec_section self n i).
Proof. reflexivity. Qed.

Lemma t_mono i j : (i < j)%Z -> IZR i / IZR (n - 1) < IZR j / IZR (n - 1).
Proof.
  intros H. apply IZR_lt in H. pose proof sections_pos as Hn.
  unfold Rdiv. apply Rmult_lt_compat_r; [apply Rinv_0_lt_compat |]; lra.
Qed.

Lemma t_bounds i :
  (0 <= i < n)%Z -> 0 <= IZR i / IZR (n - 1) <= 1.
Proof.
  intros [H0 H1]. pose proof sections_pos as Hn.
  apply IZR_le in H0. assert (H2 : IZR i <= IZR (n - 1)) by (apply IZR_le; lia).
  split.
  - apply Rmult_le_pos; [lra |]. left. apply Rinv_0_lt_compat. lra.
  - apply Rmult_le_reg_r with (IZR (n - 1)); [lra |].
    unfold Rdiv. rewrite Rmult_assoc, Rinv_l by lra. lra.
Qed.

Lemma axialOffset_mono i j :
  0 < fw -> (i < j)%Z ->
  Spec.axialOffset (spec_section self n i)
  < Spec.axialOffset (spec_section self n j).
Proof.
  intros Hfw H. rewrite !axialOffset_eq.
  apply Rmult_lt_compat_r; [exact Hfw | apply t_mono, H].
Qed.


Lemma axialOffset_mono_inv i j :
  0 < fw ->
  Spec.axialOffset (spec_section self n i)
  < Spec.axialOffset (spec_section self n j) -> (i < j)%Z.
Proof.
  intros Hfw H. destruct (Z_lt_le_dec i j) as [|Hle]; [assumption |].
  exfalso. destruct (Z.eq_dec j i) as [->|Hne]; [lra |].
  assert (Hlt : (j < i)%Z) by lia.
  apply (axialOffset_mono _ _ Hfw) in Hlt. lra.
Qed.

Lemma scale_mono i j :
  0 < fw -> 0 < a -> (i < j)%Z ->
  Spec.scale (spec_section self n j) < Spec.scale (spec_section self n i).
Proof.
  intros Hfw Ha H. rewrite !scale_eq.
  pose proof (axialOffset_mono i j Hfw H) as Ho. rewrite !axialOffset_eq in Ho.
  unfold Rdiv at 1 3.
  apply Rmult_lt_compat_r; [apply Rinv_0_lt_compat; exact Ha | lra].
Qed.

Lemma axialOffset_0 : Spec.axialOffset (spec_section self n 0) = 0.
Proof. rewrite axialOffset_eq. unfold Rdiv. lra. Qed.

Lemma scale_0 : a <> 0 -> Spec.scale (spec_section self n 0) = 1.
Proof.
  intros Ha. rewrite scale_eq. pose proof sections_pos as Hn.
  field. split; [lra | exact Ha].
Qed.

Lemma kept_0 : a <> 0 -> kept self n 0 = true.
Proof. intros Ha. unfold kept. rewrite (scale_0 Ha). apply Rgtb_true. lra. Qed.

Lemma axialOffset_bounds i :
  0 <= fw -> (0 <= i < n)%Z ->
  0 <= Spec.axialOffset (spec_section self n i) <= fw.
Proof.
  intros Hfw Hi. rewrite axialOffset_eq. pose proof (t_bounds i Hi). nra.
Qed.

Lemma scale_le_1 i :
  0 <= fw -> 0 < a -> (0 <= i < n)%Z ->
  Spec.scale (spec_section self n i) <= 1.
Proof.
  intros Hfw Ha Hi. rewrite scale_eq.
  pose proof (axialOffset_bounds i Hfw Hi) as Ho. rewrite axialOffset_eq in Ho.
  apply Rmult_le_reg_r with a; [exact Ha |].
  unfold Rdiv. rewrite Rmult_assoc, Rinv_l by lra. lra.
Qed.

(** With a face shorter than nine tenths of the apex distance every
    index passes the test. *)
Lemma kept_all i :
  0 <= fw -> fw < a * (9 / 10) -> (0 <= i < n)%Z -> kept self n i = true.
Proof.
  intros Hfw Hlt Hi. unfold kept. apply Rgtb_true. rewrite scale_eq.
  pose proof (axialOffset_bounds i Hfw Hi) as Ho. rewrite axialOffset_eq in Ho.
  assert (Ha : 0 < a) by lra.
  apply Rlt_gt. apply Rmult_lt_reg_r with a; [exact Ha |].
  unfold Rdiv at 2. rewrite Rmult_assoc, Rinv_l by lra. lra.
Qed.

(** The last index is dropped once the face reaches the apex. *)
Lemma kept_last : 0 < a -> a <= fw -> kept self n (n - 1) = false.
Proof.
  intros Ha Hle. unfold kept. apply Rgtb_false. rewrite scale_eq.
  pose proof sections_pos as Hn.
  replace (IZR (n - 1) / IZR (n - 1)) with 1 by (field; lra).
  apply Rmult_le_reg_r with a; [exact Ha |].
  unfold Rdiv at 1. rewrite Rmult_assoc, Rinv_l by lra. lra.
Qed.

End Scalars.

(** ** The stack of a bevel gear *)

Section BevelStack.
Import bevel_gear_generator.
Variable World : Type.
Variable Polygon : Type.
Variable exterior_coords : Polygon -> list (R * R).
Variable gear_generate : gear.args -> M World (Polygon * R).
Variable gear_deg2rad : R -> R.

Let init := __init__ World Polygon exterior_coords gear_generate
                     gear_deg2rad.
Let is_emitted := emitted World Polygon exterior_coords gear_generate
                          gear_deg2rad.
Let returns := generate_returns World Polygon gear_generate.

(** Every entry of a stack comes from a kept index of the range. *)
Lemma stack_entry g n secs s :
  Forall2 (is_emitted g n) (filter (kept g n) (range n)) secs ->
  In s secs ->
  exists i, (0 <= i < n)%Z /\ kept g n i = true /\ is_emitted g n i s.
Proof.
  intros HF Hs. destruct (Forall2_In_r _ _ _ _ HF Hs) as [i [Hi He]].
  apply filter_In in Hi. destruct Hi as [Hi Hk]. apply range_In in Hi.
  exists i. auto.
Qed.

(** The large end is the first entry of a stack. *)
Lemma stack_head g n secs :
  (1 < n)%Z -> apex_of g <> 0 ->
  Forall2 (is_emitted g n) (filter (kept g n) (range n)) secs ->
  exists s rest, secs = s :: rest /\ z s = 0 /\ scale s = 1.
Proof.
  intros Hn Ha HF. unfold range in HF.
  destruct (Z.to_nat n) as [|k] eqn:E; [lia |]. simpl in HF.
  rewrite (kept_0 g n Hn Ha) in HF.
  inversion HF as [|i s l rest He HF' E1 E2]; subst.
  exists s, rest. split; [reflexivity |].
  destruct He as [Hz [Hsc _]].
  rewrite Hz, Hsc, (axialOffset_0 g n), (scale_0 g n Hn Ha). auto.
Qed.

(** A stack is ordered by strictly increasing axial offset as soon as
    the face width is positive. *)
Lemma stack_sorted g n secs :
  (1 < n)%Z -> 0 < face_width g ->
  Forall2 (is_emitted g n) (filter (kept g n) (range n)) secs ->
  StronglySorted (fun s1 s2 => z s1 < z s2) secs.
Proof.
  intros Hn Hfw HF.
  apply (Forall2_StronglySorted _ Z.lt _ _ _) with (3 := filter_StronglySorted _ _ _ (range_sorted n)) (2 := HF).
  intros i j s1 s2 _ _ Hij [Hz1 _] [Hz2 _]. rewrite Hz1, Hz2.
  apply axialOffset_mono; assumption.
Qed.

Lemma stack_length g n secs :
  Forall2 (is_emitted g n) (filter (kept g n) (range n)) secs ->
  length secs = length (filter (kept g n) (range n)).
Proof. intros HF. symmetry. eapply Forall2_length, HF. Qed.

Lemma range_length n : length (range n) = Z.to_nat n.
Proof. unfold range. rewrite length_map, length_seq. reflexivity. Qed.

Lemma apex_of_init g m t pa c fw cl bl fc (secs : list Section_) :
  g = MkBevelGear m t pa c fw cl bl 0 fc (PI * m) (IZR t * m / 2) secs ->
  apex_of g = Spec.apexDistance (IZR t * m / 2) c /\ face_width g = fw /\
  pitch_radius g = IZR t * m / 2 /\ module g = m /\ cone_angle g = c.
Proof. intros ->. cbn. auto. Qed.

Lemma apexDistance_pos_inv p c :
  0 < Spec.apexDistance p c -> sin (radians c) <> 0 /\ p <> 0.
Proof.
  unfold Spec.apexDistance. rewrite <- radians_spec. intros H. split.
  - intros E. rewrite E in H. unfold Rdiv in H. rewrite Rinv_0 in H. lra.
  - intros E. rewrite E in H. unfold Rdiv in H. lra.
Qed.

(** The indices a stack was built from: an increasing selection of the
    range, the indices that passed the test. *)
Lemma stack_indices g n secs :
  Forall2 (is_emitted g n) (filter (kept g n) (range n)) secs ->
  exists idx,
    StronglySorted Z.lt idx /\
    (forall i, In i idx <-> (0 <= i < n)%Z /\ kept g n i = true) /\
    Forall2 (is_emitted g n) idx secs.
Proof.
  intros HF. exists (filter (kept g n) (range n)). split; [| split].
  - apply filter_StronglySorted, range_sorted.
  - intros i. rewrite filter_In, range_In. reflexivity.
  - exact HF.
Qed.


(** C1: for a cone angle in (0, 90] degrees the constructor divides the
    pitch radius of the large end by the sine of the cone angle in
    radians to get the apex distance, and every section of the stack it
    returns is the section of an index i of 0..9, the indices increasing
    along the stack, with t = i/9,
    sectionDistanceFromApex = apexDistance - t*faceWidth,
    scale = sectionDistanceFromApex / apexDistance,
    effectiveModule = module*scale (the tooth width of its profile is
    pi times it), effectiveRadius = pitchRadius*scale and
    axialOffset = t*faceWidth.  Every index whose scale is at least 0.11
    has its section in the stack; for the scales next to 0.1 the
    statement leaves open whether the section is stored.  The
    constructor returns when the library does and the pitch radius is
    not zero.  For module 5, 20 teeth and 45 degrees the apex distance
    is 50/sin(pi/4). *)
Theorem C1_section_stack m t pa c fw cl bl fc w :
  0 < c <= 90 ->
  (returns -> IZR t * m <> 0 ->
   exists g w', init m t pa c fw cl bl fc w = (Ok g, w')) /\
  (forall g w', init m t pa c fw cl bl fc w = (Ok g, w') ->
     let pitchRadius := IZR t * m / 2 in
     let apexDistance := Spec.apexDistance pitchRadius c in
     pitch_radius g = pitchRadius /\
     truediv (pitch_radius g) (sin (radians (cone_angle g)))
       = Ok apexDistance /\
     exists idx,
       StronglySorted Z.lt idx /\
       (forall i, In i idx -> (0 <= i < 10)%Z) /\
       (forall i, (0 <= i < 10)%Z ->
                  Spec.scale (Spec.section m pitchRadius c fw 10 i)
                  >= 11 / 100 ->
                  In i idx) /\
       Forall2
         (fun i s =>
            let b := Spec.section m pitchRadius c fw 10 i in
            z s = Spec.axialOffset b /\
            scale s = Spec.scale b /\
            radius s = Spec.effectiveRadius b /\
            exists w0 poly r w1,
              gear_generate
                (gear.Args t (PI * Spec.effectiveModule b) (gear_deg2rad pa)
                           bl fc) w0 = (Ok (poly, r), w1) /\
              points s = exterior_coords poly)
         idx (sections g)) /\
  Spec.apexDistance (IZR 20 * 5 / 2) 45 = 50 / sin (PI / 4).
Proof.
  intros Hc. pose proof (sin_cone_pos c Hc) as Hsin. split; [| split].
  - intros Hgen Hp. apply init_returns; auto. lra.
  - intros g w' Hrun. apply init_inv in Hrun.
    destruct Hrun as [Eg [Hs [Ha HF]]].
    destruct (stack_indices _ _ _ HF) as [idx [Hsorted [Hin HF']]].
    destruct (apex_of_init _ _ _ _ _ _ _ _ _ _ Eg)
      as [_ [Efw [Epr [Em Ec]]]].
    assert (Hcov : forall i, (0 <= i < 10)%Z ->
              Spec.scale (Spec.section m (IZR t * m / 2) c fw 10 i)
              >= 11 / 100 -> In i idx).
    { intros i Hi Hsc. apply Hin. split; [exact Hi |].
      unfold kept, spec_section. rewrite Efw, Epr, Em, Ec.
      apply Rgtb_true. lra. }
    clear Efw Epr Em Ec.
    destruct g; cbn in Eg; inversion Eg; subst. cbn.
    split; [reflexivity |]. split.
    + rewrite truediv_Ok by exact Hs.
      unfold Spec.apexDistance. rewrite radians_spec. reflexivity.
    + exists idx. split; [exact Hsorted |].
      split; [intros i Hi; apply Hin, Hi |].
      split; [exact Hcov |]. exact HF'.
  - unfold Spec.apexDistance.
    replace (45 * PI / 180) with (PI / 4) by field.
    replace (IZR 20 * 5 / 2) with 50 by lra. reflexivity.
Qed.

(** C5, amended: with a positive face width and a positive apex distance
    the constructor returns (when the library does), and in the stack it
    returns the scale never increases as the axial offset increases:
    between any two sections, and along the stack; it strictly decreases
    when the face width is no smaller than a billionth of the apex
    distance, so that the steps of the scale are not lost to rounding.
    The section at axial offset 0 has scale exactly 1, and it is the
    first one. *)
Theorem C5_scale_decreasing m t pa c fw cl bl fc w :
  0 < fw -> 0 < Spec.apexDistance (IZR t * m / 2) c ->
  (returns -> exists g w', init m t pa c fw cl bl fc w = (Ok g, w')) /\
  (forall g w', init m t pa c fw cl bl fc w = (Ok g, w') ->
     (forall s1 s2, In s1 (sections g) -> In s2 (sections g) ->
                    z s1 < z s2 -> scale s2 <= scale s1) /\
     (Spec.apexDistance (IZR t * m / 2) c / 10 ^ 9 <= fw ->
      forall s1 s2, In s1 (sections g) -> In s2 (sections g) ->
                    z s1 < z s2 -> scale s2 < scale s1) /\
     StronglySorted (fun s1 s2 => z s1 <= z s2 /\ scale s2 <= scale s1)
                    (sections g) /\
     (forall s, In s (sections g) -> z s = 0 -> scale s = 1) /\
     exists s rest, sections g = s :: rest /\ z s = 0 /\ scale s = 1).
Proof.
  intros Hfw Hapex. destruct (apexDistance_pos_inv _ _ Hapex) as [Hsin Hp].
  split.
  - intros Hgen. apply init_returns; auto. lra.
  - intros g w' Hrun. apply init_inv in Hrun.
    destruct Hrun as [Eg [_ [Ha HF]]].
    destruct (apex_of_init _ _ _ _ _ _ _ _ _ _ Eg) as [Eapex [Efw _]].
    assert (Hfw' : 0 < face_width g) by (rewrite Efw; exact Hfw).
    assert (Hapex' : 0 < apex_of g) by (rewrite Eapex; exact Hapex).
    assert (Hn : (1 < 10)%Z) by lia.
    assert (Hpair : forall s1 s2, In s1 (sections g) -> In s2 (sections g) ->
                      z s1 < z s2 -> scale s2 < scale s1).
    { intros s1 s2 H1 H2 Hz.
      destruct (stack_entry _ _ _ _ HF H1) as [i [_ [_ [Hz1 [Hs1 _]]]]].
      destruct (stack_entry _ _ _ _ HF H2) as [j [_ [_ [Hz2 [Hs2 _]]]]].
      rewrite Hz1, Hz2 in Hz. rewrite Hs1, Hs2.
      apply scale_mono; auto.
      apply (axialOffset_mono_inv g 10 Hn); auto. }
    split; [| split; [| split; [| split]]].
    + intros s1 s2 H1 H2 Hz. left. apply Hpair; assumption.
    + intros _. exact Hpair.
    + pose proof (stack_sorted g 10 _ Hn Hfw' HF) as Hsorted.
      clear - Hsorted Hpair.
      induction Hsorted as [|s l Hs IH Hall]; constructor.
      * apply IH. intros s1 s2 H1 H2. apply Hpair; right; assumption.
      * rewrite Forall_forall in *. intros s2 H2.
        pose proof (Hall s2 H2) as Hz. split; [lra |].
        left. apply Hpair; simpl; auto.
    + intros s Hs Hz.
      destruct (stack_entry _ _ _ _ HF Hs) as [i [Hi [_ [Hz1 [Hs1 _]]]]].
      rewrite Hs1. rewrite Hz1 in Hz.
      destruct (Z.eq_dec i 0) as [->|Hne].
      * apply scale_0; auto.
      * assert (H0 : (0 < i)%Z) by lia.
        apply (axialOffset_mono g 10 Hn _ _ Hfw') in H0.
        rewrite (axialOffset_0 g 10) in H0. lra.
    + apply (stack_head g 10 _ Hn Ha HF).
Qed.

(** C10: with a positive face width below nine tenths of the apex
    distance the constructor returns (when the library does), and every
    section of the stack it returns has 0.1 < scale <= 1,
    0 <= axialOffset <= faceWidth and effectiveRadius = pitchRadius *
    scale; the first one is the large end with scale exactly 1 and axial
    offset exactly 0, and the stack is not empty. *)
Theorem C10_emitted_sections_bounds m t pa c fw cl bl fc w :
  0 < fw -> fw < Spec.apexDistance (IZR t * m / 2) c * (9 / 10) ->
  (returns -> exists g w', init m t pa c fw cl bl fc w = (Ok g, w')) /\
  (forall g w', init m t pa c fw cl bl fc w = (Ok g, w') ->
     (forall s, In s (sections g) ->
                1 / 10 < scale s <= 1 /\ 0 <= z s <= fw /\
                radius s = pitch_radius g * scale s) /\
     (exists s rest, sections g = s :: rest /\ scale s = 1 /\ z s = 0) /\
     sections g <> []).
Proof.
  intros Hfw Hlt.
  assert (Hapex : 0 < Spec.apexDistance (IZR t * m / 2) c) by lra.
  destruct (apexDistance_pos_inv _ _ Hapex) as [Hsin Hp].
  split.
  - intros Hgen. apply init_returns; auto. lra.
  - intros g w' Hrun. apply init_inv in Hrun.
    destruct Hrun as [Eg [_ [Ha HF]]].
    destruct (apex_of_init _ _ _ _ _ _ _ _ _ _ Eg) as [Eapex [Efw _]].
    assert (Hn : (1 < 10)%Z) by lia.
    destruct (stack_head g 10 _ Hn Ha HF) as [s0 [rest [Es [Hz0 Hs0]]]].
    split; [| split].
    + intros s Hs.
      destruct (stack_entry _ _ _ _ HF Hs) as [i [Hi [Hk [Hz1 [Hs1 [Hr1 _]]]]]].
      rewrite Hz1, Hs1, Hr1, <- Efw. split; [split |]; [| | split].
      * apply Rgtb_true in Hk. lra.
      * apply scale_le_1; auto; rewrite ?Efw, ?Eapex; lra.
      * apply axialOffset_bounds; auto. rewrite Efw. lra.
      * reflexivity.
    + exists s0, rest. auto.
    + rewrite Es. discriminate.
Qed.


(** C2, amended: when the face width is at or beyond a positive apex
    distance nothing is raised on that account: the constructor returns
    whenever the library does, and the stack it returns is cut short
    without notice: it has at most nine of the ten sections, the small
    end is not among them, and only scales above 0.1 are left. *)
Theorem C2_face_beyond_apex_truncates m t pa c fw cl bl fc w :
  0 < Spec.apexDistance (IZR t * m / 2) c ->
  fw >= Spec.apexDistance (IZR t * m / 2) c ->
  (returns -> exists g w', init m t pa c fw cl bl fc w = (Ok g, w')) /\
  (forall g w', init m t pa c fw cl bl fc w = (Ok g, w') ->
     (length (sections g) <= 9)%nat /\
     (forall s, In s (sections g) -> scale s > 1 / 10 /\ z s < fw)).
Proof.
  intros Hapex Hge. destruct (apexDistance_pos_inv _ _ Hapex) as [Hsin Hp].
  split.
  - intros Hgen. apply init_returns; auto. lra.
  - intros g w' Hrun. apply init_inv in Hrun.
    destruct Hrun as [Eg [_ [Ha HF]]].
    destruct (apex_of_init _ _ _ _ _ _ _ _ _ _ Eg) as [Eapex [Efw _]].
    assert (Hn : (1 < 10)%Z) by lia.
    assert (Hlast : kept g 10 9 = false).
    { apply (kept_last g 10 Hn); rewrite ?Efw, ?Eapex; lra. }
    split.
    + rewrite (stack_length _ _ _ HF).
      change 10%Z with (9 + 1)%Z at 2. rewrite range_succ by lia.
      rewrite filter_app. simpl. rewrite Hlast, app_nil_r.
      pose proof (filter_length_le (kept g 10) (range 9)) as Hle.
      rewrite range_length in Hle. simpl in Hle. exact Hle.
    + intros s Hs.
      destruct (stack_entry _ _ _ _ HF Hs) as [i [Hi [Hk [Hz1 [Hs1 _]]]]].
      rewrite Hs1, Hz1. split; [apply Rgtb_true in Hk; exact Hk |].
      destruct (Z.eq_dec i 9) as [->|Hne]; [congruence |].
      assert (Hlt : (i < 9)%Z) by lia.
      assert (Hfw : 0 < face_width g) by (rewrite Efw; lra).
      pose proof (axialOffset_mono g 10 Hn i 9 Hfw Hlt) as Hm.
      rewrite (axialOffset_eq g 10 9) in Hm. rewrite <- Efw.
      replace (IZR 9 / IZR (10 - 1)) with 1 in Hm; [lra |].
      simpl. field.
Qed.

End BevelStack.

(** ** Spur gears and their placement *)

Section Spur.
Import gear_generator.
Variable World : Type.
Variable Polygon : Type.
Variable exterior_coords : Polygon -> list (R * R).
Variable gear_generate : gear.args -> M World (Polygon * R).
Variable gear_deg2rad : R -> R.

Let init := __init__ World Polygon gear_generate gear_deg2rad.
Let patch := create_gear_patch Polygon exterior_coords.
Let export := export_gears_only World Polygon exterior_coords
                gear_generate gear_deg2rad.
Let bevel_init := bevel_gear_generator.__init__ World Polygon
                    exterior_coords gear_generate gear_deg2rad.
Let polygons_not_empty := polygons_not_empty World Polygon exterior_coords
                            gear_generate.
Let as_specified := generate_as_specified World Polygon gear_generate.

(** A spur gear that [__init__] returns carries the arguments and what
    the library returned for the tooth width pi times the module. *)
Lemma involute_init_inv m t pa cl bl ps w g w' :
  init m t pa cl bl ps w = (Ok g, w') ->
  gear_generate (gear.Args t (PI * m) (gear_deg2rad pa) bl 32) w
    = (Ok (gear_poly Polygon g, pitch_radius Polygon g), w') /\
  g = MkInvoluteGear Polygon m t pa cl bl ps (PI * m)
        (gear_poly Polygon g) (pitch_radius Polygon g).
Proof.
  unfold init, __init__, bind, ret.
  destruct (gear_generate _ w) as [[[poly r]|e] w1]; [| discriminate].
  intros H. inversion H; subst. cbn. auto.
Qed.

Lemma involute_init_returns m t pa cl bl ps w :
  generate_returns World Polygon gear_generate ->
  exists g w', init m t pa cl bl ps w = (Ok g, w').
Proof.
  intros Hgen. unfold init, __init__, bind, ret.
  match goal with |- context [gear_generate ?a w] =>
    destruct (Hgen a w) as [[poly r] [w1 Hg]]; rewrite Hg end.
  eauto.
Qed.

Lemma create_gear_patch_inv g h p r :
  patch g h = Ok (p, r) ->
  r = pitch_radius Polygon g /\
  transform p = Affine2D_identity /\
  points Polygon exterior_coords g <> [].
Proof.
  unfold patch, create_gear_patch.
  destruct (points Polygon exterior_coords g) as [|v vs]; [discriminate |].
  intros H. inversion H; subst. cbn. repeat split. discriminate.
Qed.

Lemma create_gear_patch_returns g h :
  points Polygon exterior_coords g <> [] ->
  exists p, patch g h = Ok (p, pitch_radius Polygon g).
Proof.
  unfold patch, create_gear_patch.
  destruct (points Polygon exterior_coords g) as [|v vs]; [congruence |].
  eauto.
Qed.

(** Rotate, then translate: where a vertex ends up. *)
Lemma placement_vertex theta d v :
  transform_vertex (translate d 0 (rotate theta Affine2D_identity)) v
  = (fst v * cos theta - snd v * sin theta + d,
     fst v * sin theta + snd v * cos theta).
Proof. unfold transform_vertex. cbn. f_equal; ring. Qed.

Lemma export_gears_only_inv m t1 t2 pa cl bl w pl w' :
  export m t1 t2 pa cl bl w = (Ok pl, w') ->
  exists g1 g2 w1 p1 p2 q2,
    init m t1 pa cl bl 0 w = (Ok g1, w1) /\
    init m t2 pa cl bl 0 w1 = (Ok g2, w') /\
    patch g1 3 = Ok (p1, pitch_radius Polygon g1) /\
    patch g2 (3 / 2) = Ok (q2, pitch_radius Polygon g2) /\
    IZR t2 <> 0 /\
    pl = MkPlacement
           (pitch_radius Polygon g1 + pitch_radius Polygon g2)
           (PI / IZR t2) [p1; p2] /\
    p2 = MkPathPatch (vertices q2) (codes q2)
           (translate (pitch_radius Polygon g1 + pitch_radius Polygon g2) 0
              (rotate (PI / IZR t2) Affine2D_identity)).
Proof.
  unfold export, export_gears_only, bind, lift, ret.
  destruct (__init__ _ _ _ _ m t1 pa cl bl 0 w) as [[g1|e] w1] eqn:H1;
    [| discriminate].
  destruct (create_gear_patch _ _ g1 3) as [[p1 r1]|e] eqn:Hp1;
    [| discriminate].
  destruct (__init__ _ _ _ _ m t2 pa cl bl 0 w1) as [[g2|e] w2] eqn:H2;
    [| discriminate].
  destruct (truediv PI (IZR t2)) as [theta|e] eqn:Hd; [| discriminate].
  destruct (create_gear_patch _ _ g2 (3 / 2)) as [[q2 r2]|e] eqn:Hp2;
    [| discriminate].
  intros H. inversion H; subst. clear H.
  apply truediv_inv in Hd. destruct Hd as [Ht ->].
  destruct (create_gear_patch_inv _ _ _ _ Hp1) as [-> _].
  destruct (create_gear_patch_inv _ _ _ _ Hp2) as [-> _].
  exists g1, g2, w1, p1. eexists. exists q2.
  repeat split; try eassumption; reflexivity.
Qed.

Lemma export_gears_only_returns m t1 t2 pa cl bl w :
  generate_returns World Polygon gear_generate ->
  polygons_not_empty -> t2 <> 0%Z ->
  exists pl w', export m t1 t2 pa cl bl w = (Ok pl, w').
Proof.
  intros Hgen Hne Ht.
  unfold export, export_gears_only, bind, lift, ret.
  destruct (involute_init_returns m t1 pa cl bl 0 w Hgen) as [g1 [w1 H1]].
  fold init. rewrite H1.
  destruct (involute_init_inv _ _ _ _ _ _ _ _ _ H1) as [Hg1 _].
  destruct (create_gear_patch_returns g1 3) as [p1 Hp1].
  { unfold points. eapply Hne, Hg1. }
  fold patch. rewrite Hp1.
  destruct (involute_init_returns m t2 pa cl bl 0 w1 Hgen) as [g2 [w2 H2]].
  rewrite H2.
  destruct (involute_init_inv _ _ _ _ _ _ _ _ _ H2) as [Hg2 _].
  rewrite truediv_Ok by (intros E; apply eq_IZR_R0 in E; auto).
  destruct (create_gear_patch_returns g2 (3 / 2)) as [p2 Hp2].
  { unfold points. eapply Hne, Hg2. }
  rewrite Hp2. eauto.
Qed.

Lemma main_is_export args w :
  main World Polygon exterior_coords gear_generate gear_deg2rad args w
  = export (args_module args) (args_teeth1 args) (args_teeth2 args)
      (args_pressure_angle args) (args_clearance args)
      (args_backlash args) w.
Proof.
  unfold main. destruct (args_gears_only args && args_save args)%bool;
    reflexivity.
Qed.

(** C3: the placement of two spur gears.  [export_gears_only], and
    [main] which computes the same, build gear A and gear B from the
    module and the two tooth counts, set the centre distance to the sum
    of the two pitch radii and the rotation angle to pi / teethCountB
    (half the angular pitch 2 pi / teethCountB of gear B), leave the
    patch of gear A where it is and draw the patch of gear B rotated by
    that angle and then translated by (centerDistance, 0).  The
    placement is computed whenever the library returns polygons that
    are not empty and gear B has a tooth.  With the pitch radii the
    specification gives, module 1 and 30 and 15 teeth give a centre
    distance of 22.5 and the angle pi/15. *)
Theorem C3_spur_meshing_placement m t1 t2 pa cl bl w :
  (forall pl w',
      export m t1 t2 pa cl bl w = (Ok pl, w') ->
      exists g1 g2 w1 pA pB,
        init m t1 pa cl bl 0 w = (Ok g1, w1) /\
        init m t2 pa cl bl 0 w1 = (Ok g2, w') /\
        center_distance pl
          = pitch_radius Polygon g1 + pitch_radius Polygon g2 /\
        IZR t2 <> 0 /\
        rotation_angle pl = PI / IZR t2 /\
        2 * rotation_angle pl = 2 * PI / IZR t2 /\
        patches pl = [pA; pB] /\
        patch g1 3 = Ok (pA, pitch_radius Polygon g1) /\
        transform pA = Affine2D_identity /\
        (exists q, patch g2 (3 / 2) = Ok (q, pitch_radius Polygon g2) /\
                   vertices pB = vertices q /\ codes pB = codes q) /\
        forall v,
          transform_vertex (transform pB) v
          = (fst v * cos (rotation_angle pl)
             - snd v * sin (rotation_angle pl)
             + center_distance pl,
             fst v * sin (rotation_angle pl)
             + snd v * cos (rotation_angle pl))) /\
  (forall args,
      args_module args = m -> args_teeth1 args = t1 ->
      args_teeth2 args = t2 -> args_pressure_angle args = pa ->
      args_clearance args = cl -> args_backlash args = bl ->
      main World Polygon exterior_coords gear_generate gear_deg2rad args w
      = export m t1 t2 pa cl bl w) /\
  (generate_returns World Polygon gear_generate ->
   polygons_not_empty -> t2 <> 0%Z ->
   exists pl w', export m t1 t2 pa cl bl w = (Ok pl, w')) /\
  (as_specified -> m = 1 -> t1 = 30%Z -> t2 = 15%Z ->
   forall pl w',
     export m t1 t2 pa cl bl w = (Ok pl, w') ->
     center_distance pl = 45 / 2 /\
     rotation_angle pl = PI / 15).
Proof.
  split; [| split; [| split]].
  - intros pl w' Hrun. apply export_gears_only_inv in Hrun.
    destruct Hrun as (g1 & g2 & w1 & p1 & p2 & q2 & H1 & H2 & Hp1 & Hp2 & Ht
                     & -> & ->).
    exists g1, g2, w1, p1. eexists. cbn.
    repeat split; try eassumption; try reflexivity.
    + unfold Rdiv. ring.
    + apply (create_gear_patch_inv _ _ _ _ Hp1).
    + exists q2. repeat split; assumption.
    + intros v. apply placement_vertex.
  - intros args <- <- <- <- <- <-. apply main_is_export.
  - apply export_gears_only_returns.
  - intros Hspec -> -> -> pl w' Hrun. apply export_gears_only_inv in Hrun.
    destruct Hrun as (g1 & g2 & w1 & p1 & p2 & q2 & H1 & H2 & _ & _ & Ht
                     & -> & _).
    apply involute_init_inv in H1, H2.
    destruct H1 as [H1 _]. destruct H2 as [H2 _].
    apply Hspec in H1, H2. cbn. rewrite H1, H2.
    unfold gear.spec_pitch_radius. cbn. pose proof PI_RGT_0 as Hpi.
    split; [field; lra | reflexivity].
Qed.

(** C8, amended: every gear has the pitch radius module * teethCount
    / 2 exactly (50 for module 5 and 20 teeth) and the tooth width
    attribute pi * module exactly.  A spur gear passes that tooth width
    to the profile generation as it is; its pitch radius is the one the
    generation returns, which is module * teethCount / 2 with the result
    the specification gives for the library.  A bevel gear computes its
    pitch radius itself; the tooth width it passes to the profile
    generation is pi * module * scale for the section of that scale,
    which is pi * module for the first section, the large end, whose
    scale is 1. *)
Theorem C8_pitch_radius_and_tooth_width m t :
  (forall pa c fw cl bl fc w g w',
      bevel_init m t pa c fw cl bl fc w = (Ok g, w') ->
      bevel_gear_generator.pitch_radius g = m * IZR t / 2 /\
      (m = 5 -> t = 20%Z -> bevel_gear_generator.pitch_radius g = 50) /\
      bevel_gear_generator.tooth_width g = PI * m /\
      (forall s, In s (bevel_gear_generator.sections g) ->
         exists w0 poly r w1,
           gear_generate
             (gear.Args t (PI * m * bevel_gear_generator.scale s)
                        (gear_deg2rad pa) bl fc) w0
             = (Ok (poly, r), w1) /\
           bevel_gear_generator.points s = exterior_coords poly) /\
      (exists s rest,
          bevel_gear_generator.sections g = s :: rest /\
          PI * m * bevel_gear_generator.scale s = PI * m)) /\
  (forall pa cl bl ps w g w',
      init m t pa cl bl ps w = (Ok g, w') ->
      tooth_width Polygon g = PI * m /\
      gear_generate
        (gear.Args t (tooth_width Polygon g) (gear_deg2rad pa) bl 32) w
        = (Ok (gear_poly Polygon g, pitch_radius Polygon g), w') /\
      (as_specified -> pitch_radius Polygon g = m * IZR t / 2)).
Proof.
  split.
  - intros pa c fw cl bl fc w g w' Hrun.
    apply init_inv in Hrun. destruct Hrun as [Eg [_ [Ha HF]]].
    destruct (apex_of_init _ _ _ _ _ _ _ _ _ _ Eg) as [_ [_ [Hp [Hm _]]]].
    split; [rewrite Hp; field |]. split; [intros -> ->; rewrite Hp; lra |].
    split; [rewrite Eg; reflexivity |]. split.
    + intros s Hs.
      destruct (stack_entry _ _ _ _ _ _ _ _ _ HF Hs)
        as (i & _ & _ & _ & Hsc & _ & w0 & poly & r & w1 & Hcall & Hpts).
      exists w0, poly, r, w1. split; [| exact Hpts].
      rewrite <- Hcall. unfold profile_call.
      rewrite Hsc, effectiveModule_eq, Eg. cbn.
      f_equal. f_equal. ring.
    + destruct (stack_head _ _ _ _ _ g 10 _ ltac:(lia) Ha HF)
        as [s [rest [Es [_ Hsc]]]].
      exists s, rest. split; [exact Es |]. rewrite Hsc. ring.
  - intros pa cl bl ps w g w' Hrun.
    apply involute_init_inv in Hrun. destruct Hrun as [Hcall Eg].
    assert (Etw : tooth_width Polygon g = PI * m) by (rewrite Eg; reflexivity).
    split; [exact Etw |]. split; [rewrite Etw; exact Hcall |].
    intros Hspec. apply Hspec in Hcall. rewrite Hcall.
    unfold gear.spec_pitch_radius. cbn. pose proof PI_RGT_0 as Hpi.
    field. lra.
Qed.

End Spur.

(** ** Two bevel gears and their placement *)

Lemma radians_90 : radians 90 = PI / 2.
Proof. unfold radians. field. Qed.

(** The rotation of the figure: a quarter turn about the second axis. *)
Lemma from_euler_y_90 p : apply (from_euler_y 90) p = (vz p, vy p, - vx p).
Proof.
  unfold from_euler_y, apply, dot. cbn [row0 row1 row2].
  rewrite radians_90, cos_PI2, sin_PI2.
  destruct p as [[x y] z0]. unfold vx, vy, vz. cbn.
  f_equal; [f_equal |]; ring.
Qed.



Section Pair.
Import bevel_gear_generator.
Variable World : Type.
Variable Polygon : Type.
Variable exterior_coords : Polygon -> list (R * R).
Variable gear_generate : gear.args -> M World (Polygon * R).
Variable gear_deg2rad : R -> R.
Variable Brep : Type.
Variable create_rhino_bevel_gear : BevelGear -> R -> option Brep.

Let init := __init__ World Polygon exterior_coords gear_generate
                     gear_deg2rad.
Let visualize := visualize_bevel_gears World.
Let export := export_bevel_gears World Polygon exterior_coords
                gear_generate gear_deg2rad Brep create_rhino_bevel_gear.
Let main_ := main World Polygon exterior_coords gear_generate gear_deg2rad.
Let returns := generate_returns World Polygon gear_generate.

Lemma visualize_inv g1 g2 w fig w' :
  visualize g1 g2 w = (Ok fig, w') ->
  exists apexA,
    truediv (pitch_radius g1) (sin (radians (cone_angle g1))) = Ok apexA /\
    blue fig = get_3d_points g1 /\
    red fig = map (map (fun p => (vz p + apexA, vy p, - vx p)))
                  (get_3d_points g2).
Proof.
  unfold visualize, visualize_bevel_gears, bind, lift, ret.
  destruct (truediv _ _) as [a|e]; [| discriminate].
  intros H. inversion H; subst. clear H. exists a. cbn.
  repeat split. apply map_ext. intros section. rewrite map_map.
  apply map_ext. intros p. rewrite from_euler_y_90. reflexivity.
Qed.

Lemma visualize_returns g1 g2 w :
  sin (radians (cone_angle g1)) <> 0 ->
  exists fig, visualize g1 g2 w = (Ok fig, w).
Proof.
  intros Hs. unfold visualize, visualize_bevel_gears, bind, lift, ret.
  rewrite (truediv_Ok _ _ Hs). eauto.
Qed.

Lemma main_inv args w g1 g2 fig w' :
  main_ args w = (Ok (g1, g2, fig), w') ->
  exists w1,
    init (args_module args) (args_teeth1 args) (args_pressure_angle args)
         (args_cone_angle args) (args_face_width args)
         (args_clearance args) (args_backlash args)
         (args_frame_count args) w = (Ok g1, w1) /\
    init (args_module args) (args_teeth2 args) (args_pressure_angle args)
         (90 - args_cone_angle args) (args_face_width args)
         (args_clearance args) (args_backlash args)
         (args_frame_count args) w1 = (Ok g2, w') /\
    match fig with
    | Some f => visualize g1 g2 w' = (Ok f, w')
    | None => (args_show args || args_save_image args)%bool = false
    end.
Proof.
  unfold main_, main, bind at 1. fold init.
  destruct (init _ (args_teeth1 args) _ _ _ _ _ _ w) as [[a1|e] w1] eqn:H1;
    [| discriminate].
  unfold bind at 1. fold init.
  destruct (init _ (args_teeth2 args) _ _ _ _ _ _ w1) as [[a2|e] w2] eqn:H2;
    [| discriminate].
  destruct (args_show args || args_save_image args)%bool eqn:Hshow.
  - unfold bind, ret. fold visualize.
    destruct (visualize a1 a2 w2) as [[f|e] w3] eqn:Hv; [| discriminate].
    assert (Ew : w3 = w2).
    { revert Hv. unfold visualize, visualize_bevel_gears, bind, lift, ret.
      destruct (truediv _ _); intros Hv; inversion Hv; reflexivity. }
    subst w3. intros H. inversion H; subst. clear H.
    exists w1. repeat split; try reflexivity; assumption.
  - unfold ret. intros H. inversion H; subst. clear H.
    exists w1. repeat split; try reflexivity; assumption.
Qed.

Lemma export_inv m t1 t2 pa c fw cl bl fc w e w' :
  export true m t1 t2 pa c fw cl bl fc w = (Ok (Some e), w') ->
  exists w1,
    init m t1 pa c fw cl bl fc w = (Ok (exp_gear1 Brep e), w1) /\
    init m t2 pa (90 - c) fw cl bl fc w1 = (Ok (exp_gear2 Brep e), w') /\
    forall b ts,
      exp_brep2 Brep e = Some (b, ts) ->
      exists apexA,
        truediv (pitch_radius (exp_gear1 Brep e))
                (sin (radians (cone_angle (exp_gear1 Brep e)))) = Ok apexA /\
        ts = [Rotation (PI / 2) (0, 1, 0) (0, 0, 0);
              Translation apexA 0 0].
Proof.
  unfold export, export_bevel_gears. cbn [negb]. unfold bind at 1. fold init.
  destruct (init m t1 pa c fw cl bl fc w) as [[a1|x] w1] eqn:H1;
    [| discriminate].
  unfold bind at 1. fold init.
  destruct (init m t2 pa (90 - c) fw cl bl fc w1) as [[a2|x] w2] eqn:H2;
    [| discriminate].
  unfold bind, lift, ret.
  destruct (create_rhino_bevel_gear a2 (m * 2)) as [b2|].
  - destruct (truediv _ _) as [a|x] eqn:Hd; [| discriminate].
    intros H. inversion H; subst. clear H. exists w1. cbn.
    repeat split; auto. intros b ts Hb. inversion Hb; subst.
    exists a. auto.
  - intros H. inversion H; subst. clear H. exists w1. cbn.
    repeat split; auto. intros b ts Hb. discriminate.
Qed.

Lemma main_returns args w :
  returns -> 0 < args_cone_angle args < 90 ->
  IZR (args_teeth1 args) * args_module args <> 0 ->
  IZR (args_teeth2 args) * args_module args <> 0 ->
  exists g1 g2 fig w', main_ args w = (Ok (g1, g2, fig), w').
Proof.
  intros Hgen Hc Hp1 Hp2.
  assert (Hs1 : sin (radians (args_cone_angle args)) <> 0).
  { apply Rgt_not_eq, sin_cone_pos. lra. }
  assert (Hs2 : sin (radians (90 - args_cone_angle args)) <> 0).
  { apply Rgt_not_eq, sin_cone_pos. lra. }
  unfold main_, main, bind at 1.
  destruct (init_returns World Polygon exterior_coords gear_generate
              gear_deg2rad (args_module args) (args_teeth1 args)
              (args_pressure_angle args) (args_cone_angle args)
              (args_face_width args) (args_clearance args)
              (args_backlash args) (args_frame_count args) w Hs1 Hp1 Hgen)
    as [g1 [w1 H1]].
  rewrite H1. unfold bind at 1.
  destruct (init_returns World Polygon exterior_coords gear_generate
              gear_deg2rad (args_module args) (args_teeth2 args)
              (args_pressure_angle args) (90 - args_cone_angle args)
              (args_face_width args) (args_clearance args)
              (args_backlash args) (args_frame_count args) w1 Hs2 Hp2 Hgen)
    as [g2 [w2 H2]].
  rewrite H2.
  destruct (args_show args || args_save_image args)%bool.
  - destruct (visualize_returns g1 g2 w2) as [fig Hv].
    { apply init_inv in H1. destruct H1 as [Eg _]. rewrite Eg. exact Hs1. }
    unfold bind. fold visualize. rewrite Hv. unfold ret. eauto.
  - unfold ret. eauto.
Qed.

Lemma export_returns m t1 t2 pa c fw cl bl fc w :
  returns -> 0 < c < 90 -> IZR t1 * m <> 0 -> IZR t2 * m <> 0 ->
  exists e w', export true m t1 t2 pa c fw cl bl fc w = (Ok (Some e), w').
Proof.
  intros Hgen Hc Hp1 Hp2.
  assert (Hs1 : sin (radians c) <> 0).
  { apply Rgt_not_eq, sin_cone_pos. lra. }
  assert (Hs2 : sin (radians (90 - c)) <> 0).
  { apply Rgt_not_eq, sin_cone_pos. lra. }
  unfold export, export_bevel_gears. cbn [negb]. unfold bind at 1.
  destruct (init_returns World Polygon exterior_coords gear_generate
              gear_deg2rad m t1 pa c fw cl bl fc w Hs1 Hp1 Hgen)
    as [g1 [w1 H1]].
  rewrite H1. unfold bind at 1.
  destruct (init_returns World Polygon exterior_coords gear_generate
              gear_deg2rad m t2 pa (90 - c) fw cl bl fc w1 Hs2 Hp2 Hgen)
    as [g2 [w2 H2]].
  rewrite H2. unfold bind, lift, ret.
  destruct (create_rhino_bevel_gear g2 (m * 2)) as [b2|]; [| eauto].
  apply init_inv in H1. destruct H1 as [E1 _].
  rewrite truediv_Ok by (rewrite E1; exact Hs1). eauto.
Qed.

Lemma pair_fields m t1 t2 pa c fw cl bl fc w g1 w1 g2 w2 :
  init m t1 pa c fw cl bl fc w = (Ok g1, w1) ->
  init m t2 pa (90 - c) fw cl bl fc w1 = (Ok g2, w2) ->
  cone_angle g1 = c /\
  cone_angle g2 = 90 - cone_angle g1 /\
  module g2 = module g1 /\
  pressure_angle g2 = pressure_angle g1 /\
  face_width g2 = face_width g1 /\
  clearance g2 = clearance g1 /\
  backlash g2 = backlash g1 /\
  frame_count g2 = frame_count g1 /\
  teeth_number g1 = t1 /\ teeth_number g2 = t2.
Proof.
  intros H1 H2. apply init_inv in H1, H2.
  destruct H1 as [E1 _]. destruct H2 as [E2 _].
  rewrite E1, E2. cbn. repeat split.
Qed.

(** C7: in [main] and in [export_bevel_gears] the second gear is built
    by the same constructor as the first, from the same module,
    pressure angle, face width, clearance, backlash and sample count,
    with its own tooth count and with the cone angle 90 minus the cone
    angle of the first gear.  [main] and, where Rhino is available,
    [export_bevel_gears] build the pair whenever the library returns,
    the cone angle is strictly between 0 and 90 degrees and neither
    pitch radius is zero; without Rhino [export_bevel_gears] returns at
    once and builds nothing. *)
Theorem C7_second_gear_is_complementary :
  (forall args w g1 g2 fig w',
      main_ args w = (Ok (g1, g2, fig), w') ->
      (exists w1,
          init (args_module args) (args_teeth1 args)
               (args_pressure_angle args) (args_cone_angle args)
               (args_face_width args) (args_clearance args)
               (args_backlash args) (args_frame_count args) w
            = (Ok g1, w1) /\
          init (args_module args) (args_teeth2 args)
               (args_pressure_angle args) (90 - args_cone_angle args)
               (args_face_width args) (args_clearance args)
               (args_backlash args) (args_frame_count args) w1
            = (Ok g2, w')) /\
      cone_angle g1 = args_cone_angle args /\
      cone_angle g2 = 90 - cone_angle g1 /\
      module g2 = module g1 /\
      pressure_angle g2 = pressure_angle g1 /\
      face_width g2 = face_width g1 /\
      clearance g2 = clearance g1 /\
      backlash g2 = backlash g1 /\
      frame_count g2 = frame_count g1 /\
      teeth_number g1 = args_teeth1 args /\
      teeth_number g2 = args_teeth2 args) /\
  (forall m t1 t2 pa c fw cl bl fc w e w',
      export true m t1 t2 pa c fw cl bl fc w = (Ok (Some e), w') ->
      let g1 := exp_gear1 Brep e in
      let g2 := exp_gear2 Brep e in
      (exists w1,
          init m t1 pa c fw cl bl fc w = (Ok g1, w1) /\
          init m t2 pa (90 - c) fw cl bl fc w1 = (Ok g2, w')) /\
      cone_angle g1 = c /\
      cone_angle g2 = 90 - cone_angle g1 /\
      module g2 = module g1 /\
      pressure_angle g2 = pressure_angle g1 /\
      face_width g2 = face_width g1 /\
      clearance g2 = clearance g1 /\
      backlash g2 = backlash g1 /\
      frame_count g2 = frame_count g1 /\
      teeth_number g1 = t1 /\ teeth_number g2 = t2) /\
  (forall args w,
      returns -> 0 < args_cone_angle args < 90 ->
      IZR (args_teeth1 args) * args_module args <> 0 ->
      IZR (args_teeth2 args) * args_module args <> 0 ->
      exists g1 g2 fig w', main_ args w = (Ok (g1, g2, fig), w')) /\
  (forall m t1 t2 pa c fw cl bl fc w,
      returns -> 0 < c < 90 -> IZR t1 * m <> 0 -> IZR t2 * m <> 0 ->
      exists e w',
        export true m t1 t2 pa c fw cl bl fc w = (Ok (Some e), w')) /\
  (forall m t1 t2 pa c fw cl bl fc w,
      export false m t1 t2 pa c fw cl bl fc w = (Ok None, w)).
Proof.
  split; [| split; [| split; [| split]]].
  - intros args w g1 g2 fig w' Hrun. apply main_inv in Hrun.
    destruct Hrun as [w1 [H1 [H2 _]]].
    split; [exists w1; auto |]. eapply pair_fields; eassumption.
  - intros m t1 t2 pa c fw cl bl fc w e w' Hrun g1 g2.
    apply export_inv in Hrun. destruct Hrun as [w1 [H1 [H2 _]]].
    split; [exists w1; auto |]. eapply pair_fields; eassumption.
  - apply main_returns.
  - apply export_returns.
  - reflexivity.
Qed.


End Pair.

(** ** Runs over the stand-in library *)

Lemma demo_returns :
  generate_returns Demo.World Demo.Polygon Demo.generate.
Proof. intros a w. unfold Demo.generate. eauto. Qed.

Lemma demo_as_specified :
  generate_as_specified Demo.World Demo.Polygon Demo.generate.
Proof.
  intros a w p r w' H. unfold Demo.generate in H. inversion H. reflexivity.
Qed.

Lemma demo_not_empty :
  polygons_not_empty Demo.World Demo.Polygon Demo.exterior_coords
    Demo.generate.
Proof.
  intros a w p r w' H. unfold Demo.generate in H. inversion H. discriminate.
Qed.

Lemma apexDistance_90 p : Spec.apexDistance p 90 = p.
Proof.
  unfold Spec.apexDistance. replace (90 * PI / 180) with (PI / 2) by field.
  rewrite sin_PI2. field.
Qed.

Lemma apexDistance_45_pos : 0 < Spec.apexDistance 50 45.
Proof.
  unfold Spec.apexDistance. rewrite <- radians_spec.
  apply Rdiv_lt_0_compat; [lra | apply sin_cone_pos; lra].
Qed.

(** The world after a run of the loop is the log of the profile calls of
    the kept indices. *)
Lemma demo_for_in_log self n idx acc w secs w' :
  for_in idx
    (bevel_gear_generator.section_body Demo.World Demo.Polygon
       Demo.exterior_coords Demo.generate Demo.deg2rad self n (apex_of self))
    acc w = (Ok secs, w') ->
  w' = w ++ map (fun i => profile_call Demo.deg2rad self
                            (Spec.effectiveModule (spec_section self n i)))
               (filter (kept self n) idx).
Proof.
  revert acc w. induction idx as [|i idx IH]; intros acc w; simpl.
  - unfold ret. intros H. inversion H. rewrite app_nil_r. reflexivity.
  - unfold bind at 1, bevel_gear_generator.section_body at 1, bind, lift.
    destruct (truediv (IZR i) _) as [t|e] eqn:Ht; [| discriminate].
    destruct (truediv _ (apex_of self)) as [sc|e] eqn:Hs; [| discriminate].
    apply truediv_inv in Ht, Hs. destruct Ht as [_ ->]. destruct Hs as [_ ->].
    change (kept self n i)
      with (Rgtb ((apex_of self
                   - IZR i / IZR (n - 1)
                     * bevel_gear_generator.face_width self)
                  / apex_of self) (1 / 10)).
    destruct (Rgtb _ _).
    + unfold Demo.generate at 1, ret at 1. intros H. apply IH in H.
      rewrite H, <- app_assoc. reflexivity.
    + unfold ret at 1. intros H. apply IH in H. exact H.
Qed.

Lemma demo_init_log m t pa c fw cl bl fc g w' :
  Demo.BevelGear__init__ m t pa c fw cl bl fc [] = (Ok g, w') ->
  w' = map (fun i => profile_call Demo.deg2rad g
                       (Spec.effectiveModule (spec_section g 10 i)))
           (filter (kept g 10) (range 10)).
Proof.
  unfold Demo.BevelGear__init__, bevel_gear_generator.__init__, bind at 1.
  match goal with |- context [bevel_gear_generator._generate_sections
                                _ _ _ _ _ ?s _ _] => set (self := s) end.
  destruct (bevel_gear_generator._generate_sections Demo.World Demo.Polygon
              Demo.exterior_coords Demo.generate Demo.deg2rad self 10 [])
    as [[secs|e] w1] eqn:Hg; [| discriminate].
  unfold ret. intros H. inversion H; subst. clear H.
  unfold bevel_gear_generator._generate_sections, bind at 1, lift in Hg.
  destruct (truediv _ _) as [apex|e] eqn:Hd; [| discriminate].
  apply truediv_inv in Hd. destruct Hd as [_ ->].
  rewrite <- apex_of_eq in Hg. apply demo_for_in_log in Hg. exact Hg.
Qed.

Lemma range_10 : range 10 = [0; 1; 2; 3; 4; 5; 6; 7; 8; 9]%Z.
Proof. reflexivity. Qed.

(** The default bevel gear of the command line, with a cone angle of 90
    degrees: its stack is built. *)
Lemma demo_gear_90 fw :
  exists g w',
    Demo.BevelGear__init__ 5 20 20 90 fw (1 / 4) 0 16 [] = (Ok g, w') /\
    apex_of g = 50 /\ bevel_gear_generator.face_width g = fw /\
    bevel_gear_generator.module g = 5 /\
    Forall2 (emitted Demo.World Demo.Polygon Demo.exterior_coords
               Demo.generate Demo.deg2rad g 10)
            (filter (kept g 10) (range 10))
            (bevel_gear_generator.sections g).
Proof.
  destruct (init_returns Demo.World Demo.Polygon Demo.exterior_coords
              Demo.generate Demo.deg2rad 5 20 20 90 fw (1 / 4) 0 16 [])
    as [g [w' Hrun]].
  - rewrite radians_90, sin_PI2. lra.
  - lra.
  - exact demo_returns.
  - exists g, w'. split; [exact Hrun |].
    apply init_inv in Hrun. destruct Hrun as [Eg [_ [_ HF]]].
    destruct (apex_of_init _ _ _ _ _ _ _ _ _ _ Eg) as [Ea [Efw [_ [Em _]]]].
    rewrite apexDistance_90 in Ea. repeat split; auto. rewrite Ea. lra.
Qed.

(** A run of C1: module 5, 20 teeth, a cone angle of 45 degrees. *)
Lemma C1_witness :
  exists g w',
    Demo.BevelGear__init__ 5 20 20 45 15 (1 / 4) 0 16 [] = (Ok g, w') /\
    truediv (bevel_gear_generator.pitch_radius g)
            (sin (radians (bevel_gear_generator.cone_angle g)))
    = Ok (50 / sin (PI / 4)).
Proof.
  destruct (C1_section_stack Demo.World Demo.Polygon Demo.exterior_coords
              Demo.generate Demo.deg2rad 5 20 20 45 15 (1 / 4) 0 16 [])
    as [Hret [Hall Hex]]; [lra |].
  destruct (Hret demo_returns) as [g [w' Hrun]]; [lra |].
  exists g, w'. split; [exact Hrun |].
  destruct (Hall g w' Hrun) as [_ [Hd _]]. rewrite Hd, Hex. reflexivity.
Defined.

(** A run of C5: a face of 15 on an apex distance of 50. *)
Lemma C5_witness :
  exists g w',
    Demo.BevelGear__init__ 5 20 20 90 15 (1 / 4) 0 16 [] = (Ok g, w') /\
    exists s rest,
      bevel_gear_generator.sections g = s :: rest /\
      bevel_gear_generator.z s = 0 /\ bevel_gear_generator.scale s = 1.
Proof.
  destruct (C5_scale_decreasing Demo.World Demo.Polygon
              Demo.exterior_coords Demo.generate Demo.deg2rad
              5 20 20 90 15 (1 / 4) 0 16 [])
    as [Hret Hall]; [lra | rewrite apexDistance_90; lra |].
  destruct (Hret demo_returns) as [g [w' Hrun]].
  exists g, w'. split; [exact Hrun |]. apply (Hall g w' Hrun).
Defined.

Section Rounding.
Import PrimFloat.
Local Open Scope float_scope.
#[local] Set Warnings "-inexact-float".

(** C5 as stated fails: in binary64, for module 5, 20 teeth, a cone
    angle of 90 degrees (whose sine is 1.0, so the apex distance is 50.0)
    and a face width of 1e-20, which is positive, the first two sections
    of the stack have the axial offsets 0 and 1e-20 / 9, one strictly
    above the other, and both have the scale 1.0: the scale does not
    strictly decrease. *)
Lemma C5_counterexample :
  exists l s1 s2,
    binary64.__init__ 5 20 1e-20 1 = Ok l /\
    ltb 0 1e-20 = true /\
    In s1 l /\ In s2 l /\
    ltb (binary64.z s1) (binary64.z s2) = true /\
    ltb (binary64.scale s2) (binary64.scale s1) = false /\
    binary64.scale s1 = 1 /\ binary64.scale s2 = 1.
Proof.
  eexists.
  exists (binary64.MkScalars 0 1 50),
         (binary64.MkScalars 0x1.4fd00eebae574p-70 1 50).
  split; [vm_compute; reflexivity |].
  split; [vm_compute; reflexivity |].
  split; [left; reflexivity |].
  split; [right; left; reflexivity |].
  repeat split; vm_compute; reflexivity.
Qed.

End Rounding.

(** A run of C10: a face of 15 is shorter than nine tenths of 50. *)
Lemma C10_witness :
  exists g w',
    Demo.BevelGear__init__ 5 20 20 90 15 (1 / 4) 0 16 [] = (Ok g, w') /\
    bevel_gear_generator.sections g <> [].
Proof.
  destruct (C10_emitted_sections_bounds Demo.World Demo.Polygon
              Demo.exterior_coords Demo.generate Demo.deg2rad
              5 20 20 90 15 (1 / 4) 0 16 [])
    as [Hret Hall]; [lra | rewrite apexDistance_90; lra |].
  destruct (Hret demo_returns) as [g [w' Hrun]].
  exists g, w'. split; [exact Hrun |]. apply (Hall g w' Hrun).
Defined.



(** The test [scale > 0.1] on a concrete gear. *)
Ltac decide_kept Ea Efw :=
  unfold kept; rewrite scale_eq, Ea, Efw; simpl (10 - 1)%Z;
  first [apply Rgtb_true; lra | apply Rgtb_false; lra].

(** With the face as long as the apex distance the indices 0..8 pass
    the test and the small end does not. *)
Lemma demo_kept_face_50 g :
  apex_of g = 50 -> bevel_gear_generator.face_width g = 50 ->
  filter (kept g 10) (range 10) = [0; 1; 2; 3; 4; 5; 6; 7; 8]%Z.
Proof.
  intros Ea Efw. rewrite range_10. cbn [filter].
  replace (kept g 10 0) with true by (symmetry; decide_kept Ea Efw).
  replace (kept g 10 1) with true by (symmetry; decide_kept Ea Efw).
  replace (kept g 10 2) with true by (symmetry; decide_kept Ea Efw).
  replace (kept g 10 3) with true by (symmetry; decide_kept Ea Efw).
  replace (kept g 10 4) with true by (symmetry; decide_kept Ea Efw).
  replace (kept g 10 5) with true by (symmetry; decide_kept Ea Efw).
  replace (kept g 10 6) with true by (symmetry; decide_kept Ea Efw).
  replace (kept g 10 7) with true by (symmetry; decide_kept Ea Efw).
  replace (kept g 10 8) with true by (symmetry; decide_kept Ea Efw).
  replace (kept g 10 9) with false by (symmetry; decide_kept Ea Efw).
  reflexivity.
Qed.

(** A run of C2: a face of 50 on an apex distance of 50. *)
Lemma C2_witness :
  exists g w',
    Demo.BevelGear__init__ 5 20 20 90 50 (1 / 4) 0 16 [] = (Ok g, w') /\
    (length (bevel_gear_generator.sections g) <= 9)%nat.
Proof.
  destruct (C2_face_beyond_apex_truncates Demo.World Demo.Polygon
              Demo.exterior_coords Demo.generate Demo.deg2rad
              5 20 20 90 50 (1 / 4) 0 16 [])
    as [Hret Hall]; [rewrite apexDistance_90; lra .. |].
  destruct (Hret demo_returns) as [g [w' Hrun]].
  exists g, w'. split; [exact Hrun |]. apply (Hall g w' Hrun).
Defined.

(** C2 as stated fails: with module 5, 20 teeth, a cone angle of 90
    degrees and a face width of 50, which is the apex distance, the
    constructor raises nothing: it makes nine profile calls and returns a
    stack of nine sections. *)
Lemma C2_counterexample :
  exists g w',
    Demo.BevelGear__init__ 5 20 20 90 50 (1 / 4) 0 16 [] = (Ok g, w') /\
    bevel_gear_generator.face_width g >= apex_of g /\
    length (bevel_gear_generator.sections g) = 9%nat /\
    length w' = 9%nat.
Proof.
  destruct (demo_gear_90 50) as [g [w' [Hrun [Ea [Efw [_ HF]]]]]].
  exists g, w'. split; [exact Hrun |]. split; [rewrite Ea, Efw; lra |].
  split.
  - apply Forall2_length in HF. rewrite <- HF, (demo_kept_face_50 g Ea Efw).
    reflexivity.
  - rewrite (demo_init_log _ _ _ _ _ _ _ _ _ _ Hrun), length_map,
      (demo_kept_face_50 g Ea Efw). reflexivity.
Qed.

(** A run of C3: module 1, 30 and 15 teeth. *)
Lemma C3_witness :
  exists pl w',
    Demo.export_gears_only 1 30 15 20 (1 / 4) 0 [] = (Ok pl, w') /\
    gear_generator.center_distance pl = 45 / 2 /\
    gear_generator.rotation_angle pl = PI / 15.
Proof.
  destruct (C3_spur_meshing_placement Demo.World Demo.Polygon
              Demo.exterior_coords Demo.generate Demo.deg2rad
              1 30 15 20 (1 / 4) 0 [])
    as [_ [_ [Hret Hex]]].
  destruct (Hret demo_returns demo_not_empty) as [pl [w' Hrun]];
    [discriminate |].
  exists pl, w'. split; [exact Hrun |].
  apply (Hex demo_as_specified eq_refl eq_refl eq_refl pl w' Hrun).
Defined.

(** A run of C8: module 5 and 20 teeth. *)
Lemma C8_witness :
  exists g w',
    Demo.BevelGear__init__ 5 20 20 90 15 (1 / 4) 0 16 [] = (Ok g, w') /\
    bevel_gear_generator.pitch_radius g = 50 /\
    bevel_gear_generator.tooth_width g = PI * 5.
Proof.
  destruct (demo_gear_90 15) as [g [w' [Hrun _]]].
  exists g, w'. split; [exact Hrun |].
  destruct (proj1 (C8_pitch_radius_and_tooth_width Demo.World Demo.Polygon
                     Demo.exterior_coords Demo.generate Demo.deg2rad 5 20)
              20 90 15 (1 / 4) 0 16%Z [] g w' Hrun)
    as [_ [H50 [Htw _]]].
  split; [apply H50; reflexivity | exact Htw].
Defined.

(** C8 as stated fails: for module 5, 20 teeth, a cone angle of 90
    degrees and a face width of 15 the log of the profile calls holds a
    call, the one of the small end, whose tooth width is not pi times the
    module. *)
Lemma C8_counterexample :
  exists g w' a,
    Demo.BevelGear__init__ 5 20 20 90 15 (1 / 4) 0 16 [] = (Ok g, w') /\
    In a w' /\
    gear.tooth_width a <> PI * bevel_gear_generator.module g.
Proof.
  destruct (demo_gear_90 15) as [g [w' [Hrun [Ea [Efw [Em _]]]]]].
  exists g, w'.
  exists (profile_call Demo.deg2rad g
            (Spec.effectiveModule (spec_section g 10 9))).
  split; [exact Hrun |]. split.
  - rewrite (demo_init_log _ _ _ _ _ _ _ _ _ _ Hrun).
    apply (in_map (fun i => profile_call Demo.deg2rad g
                              (Spec.effectiveModule (spec_section g 10 i)))).
    apply filter_In. split; [apply range_In; lia |].
    apply kept_all; auto; rewrite ?Efw, ?Ea; lra || lia.
  - unfold profile_call. cbn [gear.tooth_width].
    rewrite effectiveModule_eq, scale_eq, Ea, Efw, Em. simpl (10 - 1)%Z.
    pose proof PI_RGT_0 as Hpi. intros E.
    assert (H : PI * (5 * ((50 - 9 / 9 * 15) / 50)) = PI * (7 / 2))
      by (f_equal; field).
    rewrite H in E. lra.
Qed.

(** The bevel program on its default command line: both gears are built
    and the figure is drawn. *)
Lemma demo_main_run :
  exists g1 g2 fig w',
    Demo.bevel_main Demo.bevel_defaults [] = (Ok (g1, g2, Some fig), w') /\
    bevel_gear_generator.visualize_bevel_gears Demo.World g1 g2 w'
      = (Ok fig, w') /\
    0 < apex_of g1 /\ 0 < apex_of g2 /\
    truediv (bevel_gear_generator.pitch_radius g1)
            (sin (radians (bevel_gear_generator.cone_angle g1)))
      = Ok (apex_of g1).
Proof.
  destruct (main_returns Demo.World Demo.Polygon Demo.exterior_coords
              Demo.generate Demo.deg2rad Demo.bevel_defaults []
              demo_returns) as [g1 [g2 [fig [w' Hrun]]]]; cbn; try lra.
  pose proof (main_inv _ _ _ _ _ _ _ _ _ _ _ Hrun) as [w1 [H1 [H2 Hfig]]].
  cbn in H1, H2. apply init_inv in H1, H2.
  destruct H1 as [E1 [Hs1 _]]. destruct H2 as [E2 _].
  destruct (apex_of_init _ _ _ _ _ _ _ _ _ _ E1) as [Ea1 _].
  destruct (apex_of_init _ _ _ _ _ _ _ _ _ _ E2) as [Ea2 _].
  assert (Hpos : forall c, 0 < c <= 90 ->
                   0 < Spec.apexDistance (IZR 20 * 5 / 2) c).
  { intros c Hc. unfold Spec.apexDistance. rewrite <- radians_spec.
    apply Rdiv_lt_0_compat; [lra | apply sin_cone_pos; exact Hc]. }
  destruct fig as [f|]; [| cbn in Hfig; discriminate].
  exists g1, g2, f, w'. split; [exact Hrun |]. split; [exact Hfig |].
  split; [rewrite Ea1; apply Hpos; lra |].
  split; [rewrite Ea2; apply Hpos; lra |].
  rewrite apex_of_eq. apply truediv_Ok. rewrite E1. exact Hs1.
Qed.


(** C6: the placement the claim describes is not the one the program
    computes.  For the default pair (module 5, 20 and 20 teeth, cone
    angles of 45 degrees, face width 15) the program turns gear B by a
    quarter turn about the second axis and shifts it by the apex
    distance of gear A along the first axis.  The shift has no part
    along the axis of gear A; the apex of the cone of gear B lands at
    (apexDistanceB + apexDistanceA, 0, 0), neither on the apex of the
    cone of gear A nor on the origin, where the centre of the large end
    of gear A stays. *)
Lemma C6_apexes_do_not_meet :
  exists g1 g2 fig w' apexA,
    Demo.bevel_main Demo.bevel_defaults [] = (Ok (g1, g2, Some fig), w') /\
    truediv (bevel_gear_generator.pitch_radius g1)
            (sin (radians (bevel_gear_generator.cone_angle g1)))
      = Ok apexA /\
    let place := fun p : Vec3 => (vz p + apexA, vy p, - vx p) in
    bevel_gear_generator.red fig
    = map (map place) (bevel_gear_generator.get_3d_points g2) /\
    apexA <> 0 /\
    place (0, 0, 0) = (apexA, 0, 0) /\
    dot (apexA, 0, 0) gear_axis = 0 /\
    place (cone_apex g2) = (apex_of g2 + apexA, 0, 0) /\
    place (cone_apex g2) <> cone_apex g1 /\
    place (cone_apex g2) <> (0, 0, 0).
Proof.
  destruct demo_main_run as [g1 [g2 [fig [w' [Hrun [Hv [H1 [H2 Hd]]]]]]]].
  destruct (visualize_inv _ _ _ _ _ _ Hv) as [apexA [Ha [_ Hred]]].
  assert (apexA = apex_of g1) as -> by congruence.
  exists g1, g2, fig, w', (apex_of g1).
  split; [exact Hrun |]. split; [exact Hd |]. cbv zeta.
  split; [exact Hred |]. split; [lra |].
  unfold cone_apex, gear_axis, dot, vx, vy, vz. cbn.
  split; [f_equal; [f_equal |]; ring |]. split; [ring |].
  split; [f_equal; ring |]. split.
  - intros E. inversion E. lra.
  - intros E. inversion E. lra.
Qed.

(** A run of C7: the default pair. *)
Lemma C7_witness :
  exists g1 g2 fig w',
    Demo.bevel_main Demo.bevel_defaults [] = (Ok (g1, g2, fig), w') /\
    bevel_gear_generator.cone_angle g1 = 45 /\
    bevel_gear_generator.cone_angle g2
    = 90 - bevel_gear_generator.cone_angle g1 /\
    bevel_gear_generator.module g2 = bevel_gear_generator.module g1.
Proof.
  destruct (C7_second_gear_is_complementary Demo.World Demo.Polygon
              Demo.exterior_coords Demo.generate Demo.deg2rad
              Demo.Brep Demo.create_rhino_bevel_gear)
    as [Hmain [_ [Hret _]]].
  destruct (Hret Demo.bevel_defaults [] demo_returns)
    as [g1 [g2 [fig [w' Hrun]]]]; cbn; try lra.
  exists g1, g2, fig, w'. split; [exact Hrun |].
  destruct (Hmain _ _ _ _ _ _ Hrun) as [_ [Hc1 [Hc2 [Hm _]]]]. auto.
Defined.

(** * Further properties of the two programs *)

(** ** Lists: positions in a range and in a stack *)

Lemma nth_error_range_seq s len j a :
  nth_error (map Z.of_nat (seq s len)) j = Some a -> a = Z.of_nat (s + j).
Proof.
  revert s j. induction len as [|len IH]; intros s j; simpl.
  - destruct j; discriminate.
  - destruct j as [|j]; simpl.
    + intros H. inversion H. f_equal. lia.
    + intros H. apply IH in H. rewrite H. f_equal. lia.
Qed.

Lemma nth_error_range k j a : nth_error (range k) j = Some a -> a = Z.of_nat j.
Proof. unfold range. intros H. apply nth_error_range_seq in H. exact H. Qed.

Lemma Forall2_nth_error_r {A B} (P : A -> B -> Prop) l l' j b :
  Forall2 P l l' -> nth_error l' j = Some b ->
  exists a, nth_error l j = Some a /\ P a b.
Proof.
  intros HF. revert j. induction HF as [|x y l l' Hxy _ IH]; intros j.
  - destruct j; discriminate.
  - destruct j as [|j]; simpl.
    + intros H. inversion H; subst. exists x. auto.
    + apply IH.
Qed.

Lemma Forall2_In_l {A B} (P : A -> B -> Prop) l l' a :
  Forall2 P l l' -> In a l -> exists b, In b l' /\ P a b.
Proof.
  induction 1 as [|x y l l' Hxy _ IH]; simpl; [contradiction |].
  intros [<- | Ha].
  - exists y. auto.
  - destruct (IH Ha) as [b [Hb Hp]]. exists b. auto.
Qed.

Lemma filter_all_id {A} (f : A -> bool) l :
  (forall x, In x l -> f x = true) -> filter f l = l.
Proof.
  induction l as [|x l IH]; intros H; simpl; [reflexivity |].
  rewrite (H x) by (simpl; auto). f_equal. apply IH.
  intros y Hy. apply H. simpl. auto.
Qed.

Lemma filter_none_nil {A} (f : A -> bool) l :
  (forall x, In x l -> f x = false) -> filter f l = [].
Proof.
  induction l as [|x l IH]; intros H; simpl; [reflexivity |].
  rewrite (H x) by (simpl; auto). apply IH.
  intros y Hy. apply H. simpl. auto.
Qed.

(** ** The test of the loop, read on the axial offset *)

Lemma scale_above_tenth a o :
  0 < a -> ((a - o) / a > 1 / 10 <-> o < 9 / 10 * a).
Proof.
  intros Ha.
  assert (E : (a - o) / a = 1 - o * / a) by (field; lra).
  rewrite E. pose proof (Rinv_0_lt_compat a Ha) as Hi.
  assert (E2 : o = (o * / a) * a) by (field; lra).
  split; intros H.
  - rewrite E2. nra.
  - rewrite E2 in H. nra.
Qed.

Section Threshold.
Import bevel_gear_generator.
Variable self : BevelGear.
Variable n : Z.
Hypothesis n_gt_1 : (1 < n)%Z.
Hypothesis apex_pos : 0 < apex_of self.

(** An index passes the test [scale > 0.1] exactly when its axial offset
    is below nine tenths of the apex distance. *)
Lemma kept_iff i :
  kept self n i = true
  <-> Spec.axialOffset (spec_section self n i) < 9 / 10 * apex_of self.
Proof.
  unfold kept. rewrite Rgtb_true, scale_eq, axialOffset_eq.
  apply scale_above_tenth, apex_pos.
Qed.

Lemma scale_of_offset i :
  Spec.scale (spec_section self n i)
  = 1 - Spec.axialOffset (spec_section self n i) / apex_of self.
Proof.
  rewrite scale_eq, axialOffset_eq.
  pose proof (sections_pos n n_gt_1) as Hn. pose proof apex_pos as Ha.
  field. split; lra.
Qed.

(** With a positive face width the test fails for good once it fails. *)
Lemma kept_antitone i j :
  0 < face_width self -> (i <= j)%Z ->
  kept self n j = true -> kept self n i = true.
Proof.
  intros Hfw Hij Hj. apply kept_iff. apply kept_iff in Hj.
  destruct (Z.eq_dec i j) as [->|Hne]; [exact Hj |].
  pose proof (axialOffset_mono self n n_gt_1 i j Hfw ltac:(lia)). lra.
Qed.

Lemma filter_kept_prefix p :
  0 < face_width self ->
  exists k, (k <= p)%nat /\
    filter (kept self n) (range (Z.of_nat p)) = range (Z.of_nat k).
Proof.
  intros Hfw. induction p as [|p [k [Hk IH]]].
  - exists 0%nat. split; [lia | reflexivity].
  - replace (Z.of_nat (S p)) with (Z.of_nat p + 1)%Z by lia.
    rewrite range_succ, filter_app by lia. simpl.
    destruct (kept self n (Z.of_nat p)) eqn:Hp.
    + exists (S p). split; [lia |].
      replace (Z.of_nat (S p)) with (Z.of_nat p + 1)%Z by lia.
      rewrite range_succ by lia. f_equal.
      clear IH. apply filter_all_id.
      intros i Hi. apply range_In in Hi.
      apply (kept_antitone i (Z.of_nat p)); auto. lia.
    + exists k. split; [lia |]. rewrite IH, app_nil_r. reflexivity.
Qed.

End Threshold.

(** ** Errors of the section loop and of the constructor *)

Section StackErrors.
Import bevel_gear_generator.
Variable World : Type.
Variable Polygon : Type.
Variable exterior_coords : Polygon -> list (R * R).
Variable gear_generate : gear.args -> M World (Polygon * R).
Variable gear_deg2rad : R -> R.

Let body := section_body World Polygon exterior_coords gear_generate
                         gear_deg2rad.
Let generate_sections := _generate_sections World Polygon exterior_coords
                           gear_generate gear_deg2rad.
Let init := __init__ World Polygon exterior_coords gear_generate
                     gear_deg2rad.

(** The divisions by zero of the constructor come before every library
    call. *)
Lemma init_zero_divisor m t pa c fw cl bl fc w :
  sin (radians c) = 0 \/ IZR t * m = 0 ->
  init m t pa c fw cl bl fc w = (Raise ZeroDivisionError, w).
Proof.
  intros H. unfold init, __init__, bind at 1, _generate_sections, bind at 1,
    lift. cbn [cone_angle pitch_radius].
  destruct (Req_dec_T (sin (radians c)) 0) as [Hs|Hs].
  - rewrite Hs, truediv_zero. reflexivity.
  - destruct H as [H|H]; [contradiction |].
    rewrite (truediv_Ok _ _ Hs), range_10. cbn [for_in].
    unfold bind at 1, section_body at 1, bind, lift.
    rewrite truediv_Ok by (simpl; lra).
    replace (IZR t * m / 2 / sin (radians c)) with 0
      by (rewrite H; unfold Rdiv; ring).
    rewrite truediv_zero. reflexivity.
Qed.

(** X1: the section count of [_generate_sections] at its edges, for a
    cone angle whose sine is not zero: a count of zero or less returns
    the empty stack, and a count of one raises [ZeroDivisionError], the
    position [t = 0 / 0] of its only section; neither calls the
    library. *)
Theorem generate_sections_count_edges self w :
  sin (radians (cone_angle self)) <> 0 ->
  (forall n, (n <= 0)%Z -> generate_sections self n w = (Ok [], w)) /\
  generate_sections self 1 w = (Raise ZeroDivisionError, w).
Proof.
  intros Hs. unfold generate_sections, _generate_sections, bind, lift.
  rewrite (truediv_Ok _ _ Hs). split.
  - intros n Hn. unfold range.
    replace (Z.to_nat n) with 0%nat by lia. reflexivity.
  - change (range 1) with [0%Z]. cbn [for_in].
    unfold section_body, bind, lift. simpl (1 - 1)%Z.
    rewrite truediv_zero. reflexivity.
Qed.

(** X2: a cone angle of 0 degrees, a tooth count of zero or a module
    of zero makes the constructor raise [ZeroDivisionError] before it
    calls the library: the sine of the cone angle, or the apex distance,
    is then a zero the constructor divides by. *)
Theorem init_zero_division m t pa c fw cl bl fc w :
  c = 0 \/ t = 0%Z \/ m = 0 ->
  init m t pa c fw cl bl fc w = (Raise ZeroDivisionError, w).
Proof.
  intros H. apply init_zero_divisor.
  destruct H as [-> | [-> | ->]].
  - left. unfold radians. rewrite Rmult_0_l. apply sin_0.
  - right. simpl. ring.
  - right. ring.
Qed.

End StackErrors.

(** ** The shape of the stack *)

Section StackShape.
Import bevel_gear_generator.
Variable World : Type.
Variable Polygon : Type.
Variable exterior_coords : Polygon -> list (R * R).
Variable gear_generate : gear.args -> M World (Polygon * R).
Variable gear_deg2rad : R -> R.

Let init := __init__ World Polygon exterior_coords gear_generate
                     gear_deg2rad.
Let is_emitted := emitted World Polygon exterior_coords gear_generate
                          gear_deg2rad.

(** X4: with a positive face width and a positive apex distance the
    stack has no gap: it holds the sections of the first k positions,
    1 <= k <= 10, evenly spaced: the section at place j (from 0) has the
    axial offset j/9 * faceWidth, the scale 1 - offset / apexDistance
    and the radius pitchRadius * scale. *)
Theorem stack_is_contiguous m t pa c fw cl bl fc w g w' :
  0 < fw -> 0 < Spec.apexDistance (IZR t * m / 2) c ->
  init m t pa c fw cl bl fc w = (Ok g, w') ->
  (1 <= length (sections g) <= 10)%nat /\
  forall j s,
    nth_error (sections g) j = Some s ->
    z s = INR j / 9 * fw /\
    scale s = 1 - z s / Spec.apexDistance (IZR t * m / 2) c /\
    radius s = IZR t * m / 2 * scale s.
Proof.
  intros Hfw Hapex Hrun. apply init_inv in Hrun.
  destruct Hrun as [Eg [_ [Ha HF]]].
  destruct (apex_of_init _ _ _ _ _ _ _ _ _ _ Eg) as [Ea [Efw [Ep _]]].
  assert (Hn : (1 < 10)%Z) by lia.
  assert (Ha' : 0 < apex_of g) by (rewrite Ea; exact Hapex).
  assert (Hfw' : 0 < face_width g) by (rewrite Efw; exact Hfw).
  destruct (filter_kept_prefix g 10 Hn Ha' 10 Hfw') as [k [Hk Ek]].
  change (Z.of_nat 10) with 10%Z in Ek. fold is_emitted in HF.
  rewrite Ek in HF. split.
  - destruct (stack_head World Polygon exterior_coords gear_generate
              gear_deg2rad g 10 (sections g) Hn Ha) as [s [rest [Es _]]].
    { rewrite Ek. exact HF. }
    apply Forall2_length in HF. rewrite range_length, Nat2Z.id in HF.
    rewrite <- HF in *. rewrite Es in HF. simpl in HF. lia.
  - intros j s Hj.
    destruct (Forall2_nth_error_r _ _ _ _ _ HF Hj) as [i [Hi [Hz [Hs [Hr _]]]]].
    apply nth_error_range in Hi. subst i.
    rewrite Hz, Hs, Hr, effectiveRadius_eq, (scale_of_offset g 10 Hn Ha'),
      axialOffset_eq, Ea, Efw, Ep, INR_IZR_INZ.
    simpl (10 - 1)%Z. repeat split.
Qed.

(** X5: with a positive apex distance the stack stops short of the
    apex, about nine tenths of the way: every section of the stack has
    its axial offset below 0.91 times the apex distance, and every
    position whose axial offset is below 0.89 times the apex distance
    has its section in the stack.  Between the two the test [scale >
    0.1] decides, to the rounding of the scale. *)
Theorem stack_stops_before_apex m t pa c fw cl bl fc w g w' :
  0 < Spec.apexDistance (IZR t * m / 2) c ->
  init m t pa c fw cl bl fc w = (Ok g, w') ->
  (forall s, In s (sections g) ->
             z s < 91 / 100 * Spec.apexDistance (IZR t * m / 2) c) /\
  (forall i, (0 <= i < 10)%Z ->
             IZR i / 9 * fw
             < 89 / 100 * Spec.apexDistance (IZR t * m / 2) c ->
             exists s, In s (sections g) /\ z s = IZR i / 9 * fw).
Proof.
  intros Hapex Hrun. apply init_inv in Hrun.
  destruct Hrun as [Eg [_ [Ha HF]]].
  destruct (apex_of_init _ _ _ _ _ _ _ _ _ _ Eg) as [Ea [Efw _]].
  assert (Hn : (1 < 10)%Z) by lia.
  assert (Ha' : 0 < apex_of g) by (rewrite Ea; exact Hapex).
  split.
  - intros s Hs.
    destruct (stack_entry World Polygon exterior_coords gear_generate
              gear_deg2rad _ _ _ _ HF Hs) as [i [_ [Hk [Hz _]]]].
    apply (kept_iff g 10 Ha') in Hk. rewrite Hz, <- Ea. lra.
  - intros i Hi Hlt.
    assert (Hk : kept g 10 i = true).
    { apply (kept_iff g 10 Ha'). rewrite axialOffset_eq, Ea, Efw.
      simpl (10 - 1)%Z. lra. }
    destruct (Forall2_In_l _ _ _ i HF) as [s [Hs [Hz _]]].
    { apply filter_In. split; [apply range_In; exact Hi | exact Hk]. }
    exists s. split; [exact Hs |]. rewrite Hz, axialOffset_eq, Efw.
    reflexivity.
Qed.

(** X6: the sections of a gear lie on a cone: the radius of every
    section of the stack is its distance to the apex along the axis,
    apexDistance - axialOffset, times the sine of the cone angle, and its
    scale is that distance over the apex distance. *)
Theorem sections_lie_on_cone m t pa c fw cl bl fc w g w' :
  init m t pa c fw cl bl fc w = (Ok g, w') ->
  forall s, In s (sections g) ->
    let apexDistance := Spec.apexDistance (IZR t * m / 2) c in
    radius s = (apexDistance - z s) * sin (radians c) /\
    scale s = (apexDistance - z s) / apexDistance.
Proof.
  intros Hrun s Hs. apply init_inv in Hrun.
  destruct Hrun as [Eg [Hsin [Ha HF]]].
  destruct (apex_of_init _ _ _ _ _ _ _ _ _ _ Eg) as [Ea [Efw [Ep _]]].
  destruct (stack_entry World Polygon exterior_coords gear_generate
              gear_deg2rad _ _ _ _ HF Hs) as [i [_ [_ [Hz [Hsc [Hr _]]]]]].
  cbv zeta. rewrite <- Ea.
  rewrite Hr, Hsc, Hz, effectiveRadius_eq, scale_eq, axialOffset_eq.
  split; [| reflexivity].
  assert (Ec : cone_angle g = c) by (rewrite Eg; reflexivity).
  assert (Epr : pitch_radius g = apex_of g * sin (radians c)).
  { rewrite apex_of_eq, Ec. field. exact Hsin. }
  rewrite Epr at 1. field. split; [simpl; lra | exact Ha].
Qed.

(** X7: with a positive face width of at most 0.89 times the apex
    distance the stack has all ten sections and the last of them is the
    small end: its axial offset is the face width, its scale is
    (apexDistance - faceWidth) / apexDistance and its radius is the
    pitch radius times that scale. *)
Theorem small_end_section m t pa c fw cl bl fc w g w' :
  0 < fw -> fw <= 89 / 100 * Spec.apexDistance (IZR t * m / 2) c ->
  init m t pa c fw cl bl fc w = (Ok g, w') ->
  exists s,
    nth_error (sections g) 9 = Some s /\
    nth_error (sections g) 10 = None /\
    z s = fw /\
    scale s = (Spec.apexDistance (IZR t * m / 2) c - fw)
              / Spec.apexDistance (IZR t * m / 2) c /\
    radius s = IZR t * m / 2 * scale s.
Proof.
  intros Hfw Hlt Hrun. apply init_inv in Hrun.
  destruct Hrun as [Eg [_ [Ha HF]]].
  destruct (apex_of_init _ _ _ _ _ _ _ _ _ _ Eg) as [Ea [Efw [Ep _]]].
  assert (Hn : (1 < 10)%Z) by lia.
  rewrite filter_all_id in HF.
  2:{ intros i Hi. apply range_In in Hi.
      apply kept_all; auto; rewrite ?Efw, ?Ea; lra. }
  pose proof (Forall2_length HF) as Hlen. rewrite range_length in Hlen.
  simpl in Hlen.
  destruct (nth_error (sections g) 9) as [s|] eqn:H9.
  2:{ apply nth_error_None in H9. lia. }
  exists s. split; [reflexivity |].
  split; [apply nth_error_None; lia |].
  destruct (Forall2_nth_error_r _ _ _ _ _ HF H9) as [i [Hi [Hz [Hs [Hr _]]]]].
  apply nth_error_range in Hi. subst i.
  rewrite Hr, Hs, Hz, effectiveRadius_eq, scale_eq, axialOffset_eq,
    Ea, Efw, Ep. simpl.
  replace (9 / 9 * fw) with fw by field. repeat split.
Qed.

(** X8: when the face width is at least 8.2 times a positive apex
    distance the stack is the large end alone: one section, at axial
    offset 0 and of scale 1. *)
Theorem stack_of_one_section m t pa c fw cl bl fc w g w' :
  0 < Spec.apexDistance (IZR t * m / 2) c ->
  82 / 10 * Spec.apexDistance (IZR t * m / 2) c <= fw ->
  init m t pa c fw cl bl fc w = (Ok g, w') ->
  exists s, sections g = [s] /\ z s = 0 /\ scale s = 1.
Proof.
  intros Hapex Hfw Hrun. apply init_inv in Hrun.
  destruct Hrun as [Eg [_ [Ha HF]]].
  destruct (apex_of_init _ _ _ _ _ _ _ _ _ _ Eg) as [Ea [Efw _]].
  assert (Hn : (1 < 10)%Z) by lia.
  assert (Ha' : 0 < apex_of g) by (rewrite Ea; exact Hapex).
  destruct (stack_head World Polygon exterior_coords gear_generate
              gear_deg2rad g 10 _ Hn Ha HF) as [s [rest [Es [Hz Hs]]]].
  exists s. split; [| auto].
  rewrite range_10 in HF.
  change [0; 1; 2; 3; 4; 5; 6; 7; 8; 9]%Z
    with ([0] ++ [1; 2; 3; 4; 5; 6; 7; 8; 9])%Z in HF.
  rewrite filter_app in HF. rewrite filter_none_nil with (l := [_; _; _; _; _; _; _; _; _]) in HF.
  - simpl in HF. rewrite (kept_0 g 10 Hn Ha) in HF. rewrite Es in *.
    inversion HF as [|? ? ? ? _ HF']; subst. inversion HF'. reflexivity.
  - intros i Hi. assert (Hi' : (1 <= i < 10)%Z) by (simpl in Hi; lia).
    destruct (kept g 10 i) eqn:Hk; [| reflexivity].
    apply (kept_iff g 10 Ha') in Hk.
    rewrite axialOffset_eq, Ea, Efw in Hk. simpl (10 - 1)%Z in Hk.
    assert (H1 : 1 <= IZR i) by (apply IZR_le; lia).
    assert (E : IZR i / 9 * fw = IZR i * (fw / 9)) by field.
    rewrite E in Hk. nra.
Qed.

(** X9: [get_3d_points] lifts the stack as it is: one ring for each
    section, in order; forgetting the third coordinate of a ring gives
    the points of its section back, and every point of the ring has the
    axial offset of the section as third coordinate. *)
Theorem get_3d_points_lifts_sections (g : BevelGear) :
  length (get_3d_points g) = length (sections g) /\
  map (map (fun p => (vx p, vy p))) (get_3d_points g)
  = map points (sections g) /\
  Forall2 (fun s ring => Forall (fun p => vz p = z s) ring)
          (sections g) (get_3d_points g).
Proof.
  unfold get_3d_points. split; [apply length_map |]. split.
  - rewrite map_map. apply map_ext. intros s. rewrite map_map.
    rewrite <- (map_id (points s)) at 2. apply map_ext.
    intros [x y]. reflexivity.
  - induction (sections g) as [|s l IH]; simpl; constructor; [| exact IH].
    apply Forall_forall. intros p Hp. apply in_map_iff in Hp.
    destruct Hp as [q [<- _]]. reflexivity.
Qed.

End StackShape.

(** ** The pair of bevel gears: cone angles at the ends, planes of gear B *)

Section PairEdges.
Import bevel_gear_generator.
Variable World : Type.
Variable Polygon : Type.
Variable exterior_coords : Polygon -> list (R * R).
Variable gear_generate : gear.args -> M World (Polygon * R).
Variable gear_deg2rad : R -> R.
Variable Brep : Type.
Variable create_rhino_bevel_gear : BevelGear -> R -> option Brep.

Let init := __init__ World Polygon exterior_coords gear_generate
                     gear_deg2rad.
Let visualize := visualize_bevel_gears World.
Let export := export_bevel_gears World Polygon exterior_coords
                gear_generate gear_deg2rad Brep create_rhino_bevel_gear.
Let main_ := main World Polygon exterior_coords gear_generate gear_deg2rad.

Lemma sin_radians_0 : sin (radians 0) = 0.
Proof. unfold radians. rewrite Rmult_0_l. apply sin_0. Qed.

Lemma sin_radians_90_minus_90 : sin (radians (90 - 90)) = 0.
Proof. replace (90 - 90) with 0 by ring. apply sin_radians_0. Qed.

(** The constructor met on a cone angle of sine zero. *)
Ltac raises_at Hsin :=
  match goal with
  | |- context [__init__ ?W ?P ?x ?g ?d ?m ?t ?pa ?c ?fw ?cl ?bl ?fc ?w] =>
      let E := fresh "E" in
      pose proof (init_zero_divisor W P x g d m t pa c fw cl bl fc w
                    (or_introl Hsin)) as E;
      cbv zeta in E; rewrite E; clear E
  end.

(** X10: no pair is built at the two ends of the range of the cone
    angle.  With a cone angle of 0 [main] and [export_bevel_gears] raise
    [ZeroDivisionError] at the first gear, before any library call; with
    a cone angle of 90 the first gear may be built, and then they raise
    [ZeroDivisionError] at the second gear, whose cone angle is 0. *)
Theorem pair_cone_angle_at_the_ends :
  (forall args w,
      args_cone_angle args = 0 ->
      main_ args w = (Raise ZeroDivisionError, w)) /\
  (forall args w g1 w1,
      args_cone_angle args = 90 ->
      init (args_module args) (args_teeth1 args) (args_pressure_angle args)
           (args_cone_angle args) (args_face_width args)
           (args_clearance args) (args_backlash args)
           (args_frame_count args) w = (Ok g1, w1) ->
      main_ args w = (Raise ZeroDivisionError, w1)) /\
  (forall m t1 t2 pa fw cl bl fc w,
      export true m t1 t2 pa 0 fw cl bl fc w
      = (Raise ZeroDivisionError, w)) /\
  (forall m t1 t2 pa fw cl bl fc w g1 w1,
      init m t1 pa 90 fw cl bl fc w = (Ok g1, w1) ->
      export true m t1 t2 pa 90 fw cl bl fc w
      = (Raise ZeroDivisionError, w1)).
Proof.
  split; [| split; [| split]].
  - intros args w Hc. unfold main_, main, bind at 1. rewrite Hc.
    raises_at sin_radians_0. reflexivity.
  - intros args w g1 w1 Hc H1. unfold main_, main, bind at 1. fold init.
    rewrite H1. unfold bind at 1, init. rewrite Hc.
    raises_at sin_radians_90_minus_90.
    reflexivity.
  - intros. unfold export, export_bevel_gears. cbn [negb]. unfold bind at 1.
    raises_at sin_radians_0. reflexivity.
  - intros m t1 t2 pa fw cl bl fc w g1 w1 H1.
    unfold export, export_bevel_gears. cbn [negb]. unfold bind at 1.
    fold init. rewrite H1. unfold bind at 1, init.
    raises_at sin_radians_90_minus_90.
    reflexivity.
Qed.

(** X11: where the figure draws gear B.  The ring of the section of
    axial offset z is drawn in the plane x = apexDistanceA + z: a point
    (x, y) of the section goes to (apexDistanceA + z, y, -x).  Gear A is
    drawn as [get_3d_points] gives it, a point (x, y) of the section of
    axial offset z at (x, y, z). *)
Theorem figure_planes_of_gear_B g1 g2 w fig w' :
  visualize g1 g2 w = (Ok fig, w') ->
  exists apexA,
    truediv (pitch_radius g1) (sin (radians (cone_angle g1))) = Ok apexA /\
    red fig
    = map (fun s => map (fun q => (apexA + z s, snd q, - fst q)) (points s))
          (sections g2) /\
    blue fig
    = map (fun s => map (fun q => (fst q, snd q, z s)) (points s))
          (sections g1).
Proof.
  intros Hv. apply visualize_inv in Hv.
  destruct Hv as [apexA [Ha [Hb Hr]]]. exists apexA.
  split; [exact Ha |]. split; [| exact Hb].
  rewrite Hr. unfold get_3d_points. rewrite map_map.
  apply map_ext. intros s. rewrite map_map. apply map_ext.
  intros q. unfold vx, vy, vz. cbn. do 2 f_equal. ring.
Qed.

End PairEdges.

(** ** Spur gears: the patch of a gear, the errors and the view *)

Lemma map_first_flags k :
  map (fun i => if Nat.eqb i 0 then MOVETO else LINETO) (seq 0 (S k))
  = MOVETO :: repeat LINETO k.
Proof.
  simpl. f_equal.
  assert (H : forall s, (1 <= s)%nat ->
            map (fun i => if Nat.eqb i 0 then MOVETO else LINETO) (seq s k)
            = repeat LINETO k).
  { induction k as [|k IH]; intros s Hs; simpl; [reflexivity |].
    destruct s; [lia |]. simpl. f_equal. apply IH. lia. }
  apply H. lia.
Qed.

Lemma linspace_length a b n : length (linspace a b n) = n.
Proof. unfold linspace. rewrite length_map, length_seq. reflexivity. Qed.

Lemma linspace_50 a b :
  linspace a b 50
  = a :: map (fun k => a + INR k * ((b - a) / 49)) (seq 1 48) ++ [b].
Proof.
  unfold linspace. change (seq 0 50) with (0%nat :: seq 1 48 ++ [49%nat]).
  replace (INR (50 - 1)) with 49 by (rewrite INR_IZR_INZ; reflexivity).
  cbn [map]. rewrite map_app. cbn [map]. f_equal.
  - simpl. ring.
  - f_equal. f_equal. rewrite INR_IZR_INZ. simpl. field.
Qed.

Lemma ring_first {A} (f : R -> A) a b :
  hd_error (map f (linspace a b 50)) = Some (f a).
Proof. rewrite linspace_50. reflexivity. Qed.

Section Patch.
Import gear_generator.
Variable World : Type.
Variable Polygon : Type.
Variable exterior_coords : Polygon -> list (R * R).
Variable gear_generate : gear.args -> M World (Polygon * R).
Variable gear_deg2rad : R -> R.

Let init := __init__ World Polygon gear_generate gear_deg2rad.
Let patch := create_gear_patch Polygon exterior_coords.
Let outline := points Polygon exterior_coords.
Let export := export_gears_only World Polygon exterior_coords
                gear_generate gear_deg2rad.

Lemma create_gear_patch_raise_inv g h e :
  create_gear_patch Polygon exterior_coords g h = Raise e ->
  e = IndexError /\ exterior_coords (gear_poly Polygon g) = [].
Proof.
  unfold create_gear_patch, points.
  destruct (exterior_coords (gear_poly Polygon g)) as [|v vs];
    [| discriminate].
  intros H. inversion H. auto.
Qed.

(** X12: the path of a gear patch is well formed: the polygon of the
    gear has a point, the path has as many codes as vertices, 52 more
    than the polygon has points, and the codes open and close two rings:
    MOVETO, LINETO for the other points of the polygon, CLOSEPOLY, then
    MOVETO, 49 times LINETO and CLOSEPOLY for the hole.  The radius
    returned is the pitch radius of the gear. *)
Theorem create_gear_patch_path g h p r :
  patch g h = Ok (p, r) ->
  (1 <= length (outline g))%nat /\
  r = pitch_radius Polygon g /\
  length (vertices p) = (length (outline g) + 52)%nat /\
  length (codes p) = length (vertices p) /\
  codes p = MOVETO :: repeat LINETO (length (outline g) - 1)
            ++ [CLOSEPOLY]
            ++ MOVETO :: repeat LINETO 49 ++ [CLOSEPOLY].
Proof.
  unfold patch, outline, create_gear_patch.
  destruct (points Polygon exterior_coords g) as [|v vs] eqn:E;
    [discriminate |].
  intros H.
  assert (Hp := f_equal (fun x => match x with
                                  | Ok y => fst y | Raise _ => p end) H).
  assert (Hr := f_equal (fun x => match x with
                                  | Ok y => snd y | Raise _ => r end) H).
  cbv beta match delta [fst snd] in Hp, Hr. subst p r. clear H.
  cbv beta match delta [vertices codes].
  change (length (v :: vs)) with (S (length vs)).
  rewrite linspace_length, (map_first_flags 49), (map_first_flags (length vs)).
  repeat rewrite length_app. rewrite length_map, linspace_length.
  cbn [length]. rewrite repeat_length.
  replace (S (length vs) - 1)%nat with (length vs) by lia.
  repeat split; try lia.
  cbn [app]. rewrite <- !app_assoc. reflexivity.
Qed.

(** X13: the two rings of a gear patch.  The vertices are the points of
    the polygon, its first point again, which closes the outline, fifty
    vertices of the hole and the vertex (hole_radius, 0); the vertices of
    the hole lie on the circle of radius hole_radius about the origin,
    and the first of them is (hole_radius, 0). *)
Theorem create_gear_patch_rings g h p r :
  patch g h = Ok (p, r) ->
  exists first ring,
    hd_error (outline g) = Some first /\
    vertices p = outline g ++ [first] ++ ring ++ [(h, 0)] /\
    length ring = 50%nat /\
    hd_error ring = Some (h, 0) /\
    Forall (fun v => Rsqr (fst v) + Rsqr (snd v) = Rsqr h) ring.
Proof.
  unfold patch, outline, create_gear_patch.
  destruct (points Polygon exterior_coords g) as [|v vs] eqn:E;
    [discriminate |].
  intros H.
  assert (Hp := f_equal (fun x => match x with
                                  | Ok y => fst y | Raise _ => p end) H).
  cbv beta match delta [fst] in Hp. subst p. clear H.
  cbv beta match delta [vertices].
  exists v, (map (fun t => (h * cos t, h * sin t)) (linspace 0 (2 * PI) 50)).
  split; [reflexivity |].
  split; [rewrite <- !app_assoc; reflexivity |].
  split; [rewrite length_map; apply linspace_length |].
  split.
  - rewrite ring_first, cos_0, sin_0. do 2 f_equal; ring.
  - apply Forall_forall. intros q Hq.
    apply in_map_iff in Hq. destruct Hq as [x [<- _]].
    cbv beta match delta [fst snd].
    pose proof (sin2_cos2 x) as Hx. unfold Rsqr in *. nra.
Qed.

(** X14: [create_gear_patch] raises exactly when the polygon of the
    gear has no point, and then it raises [IndexError]. *)
Theorem create_gear_patch_error g h :
  (outline g = [] -> patch g h = Raise IndexError) /\
  (forall e, patch g h = Raise e -> e = IndexError /\ outline g = []).
Proof.
  split; [| intros e; apply create_gear_patch_raise_inv].
  unfold patch, outline, create_gear_patch. intros ->. reflexivity.
Qed.

End Patch.

Section SpurRuns.
Import gear_generator.
Variable World : Type.
Variable Polygon : Type.
Variable exterior_coords : Polygon -> list (R * R).
Variable gear_generate : gear.args -> M World (Polygon * R).
Variable gear_deg2rad : R -> R.

Let init := __init__ World Polygon gear_generate gear_deg2rad.
Let patch := create_gear_patch Polygon exterior_coords.
Let export := export_gears_only World Polygon exterior_coords
                gear_generate gear_deg2rad.

(** X15: the placement of gear B is a rigid motion: it keeps the
    distance between any two vertices, and it takes the centre (0, 0) of
    the gear to (centerDistance, 0); the patch of gear A stays where it
    is. *)
Theorem spur_placement_is_rigid m t1 t2 pa cl bl w pl w' :
  export m t1 t2 pa cl bl w = (Ok pl, w') ->
  exists pA pB,
    patches pl = [pA; pB] /\
    (forall v, transform_vertex (transform pA) v = v) /\
    transform_vertex (transform pB) (0, 0) = (center_distance pl, 0) /\
    forall u v,
      Rsqr (fst (transform_vertex (transform pB) u)
            - fst (transform_vertex (transform pB) v))
      + Rsqr (snd (transform_vertex (transform pB) u)
              - snd (transform_vertex (transform pB) v))
      = Rsqr (fst u - fst v) + Rsqr (snd u - snd v).
Proof.
  intros Hrun. apply export_gears_only_inv in Hrun.
  destruct Hrun as (g1 & g2 & w1 & p1 & p2 & q2 & _ & _ & Hp1 & _ & _
                    & -> & ->).
  exists p1. eexists. split; [reflexivity |].
  apply create_gear_patch_inv in Hp1. destruct Hp1 as [_ [Hid _]].
  cbv beta match delta [transform center_distance]. fold (transform p1).
  split; [| split].
  - intros [x y]. rewrite Hid. unfold transform_vertex. cbn.
    f_equal; ring.
  - rewrite placement_vertex. cbn [fst snd]. f_equal; ring.
  - intros [x y] [x' y']. rewrite !placement_vertex. cbn [fst snd].
    pose proof (sin2_cos2 (PI / IZR t2)) as Ht. unfold Rsqr in *.
    set (a := cos (PI / IZR t2)) in *. set (b := sin (PI / IZR t2)) in *.
    replace ((x * a - y * b + _ - (x' * a - y' * b + _))
             * (x * a - y * b + _ - (x' * a - y' * b + _))
             + (x * b + y * a - (x' * b + y' * a))
               * (x * b + y * a - (x' * b + y' * a)))
      with (((x - x') * (x - x') + (y - y') * (y - y')) * (b * b + a * a))
      by ring.
    rewrite Ht. ring.
Qed.

(** X16: a second gear without teeth.  [export_gears_only] then
    returns no placement; when the library returns both profiles, with
    polygons that have a point, both gears are generated and the program
    raises [ZeroDivisionError] at the half-tooth angle pi / teeth2. *)
Theorem export_gears_only_without_teeth m t1 pa cl bl w :
  (forall pl w', export m t1 0 pa cl bl w <> (Ok pl, w')) /\
  (generate_returns World Polygon gear_generate ->
   polygons_not_empty World Polygon exterior_coords gear_generate ->
   exists g1 w1 g2 w2,
     init m t1 pa cl bl 0 w = (Ok g1, w1) /\
     init m 0 pa cl bl 0 w1 = (Ok g2, w2) /\
     export m t1 0 pa cl bl w = (Raise ZeroDivisionError, w2)).
Proof.
  split.
  - intros pl w' Hrun. apply export_gears_only_inv in Hrun.
    destruct Hrun as (g1 & g2 & w1 & p1 & p2 & q2 & _ & _ & _ & _ & Ht & _).
    apply Ht. reflexivity.
  - intros Hgen Hne.
    destruct (involute_init_returns World Polygon gear_generate gear_deg2rad
                m t1 pa cl bl 0 w Hgen) as [g1 [w1 H1]].
    destruct (involute_init_returns World Polygon gear_generate gear_deg2rad
                m 0 pa cl bl 0 w1 Hgen) as [g2 [w2 H2]].
    exists g1, w1, g2, w2. split; [exact H1 |]. split; [exact H2 |].
    unfold export, export_gears_only, bind, lift, ret.
    unfold init in H1, H2. rewrite H1.
    destruct (involute_init_inv World Polygon gear_generate gear_deg2rad
                _ _ _ _ _ _ _ _ _ H1) as [Hg1 _].
    destruct (create_gear_patch_returns Polygon exterior_coords g1 3)
      as [p1 Hp1].
    { unfold points. eapply Hne, Hg1. }
    rewrite Hp1, H2, truediv_zero. reflexivity.
Qed.

End SpurRuns.

Lemma within_of_square x r : 0 <= r -> x * x <= r * r -> - r <= x <= r.
Proof. intros Hr H. split; apply Rnot_lt_le; intros Hlt; nra. Qed.

(** X17: the view of the spur gears, for pitch radii that are not
    negative and the centre distance of the placement.  The pitch circle
    of gear A, about the origin, always lies within the limits of the
    axes.  The pitch circle of gear B, about (centerDistance, 0), lies
    within them exactly when its radius is at most 1.2 times the pitch
    radius of gear A: the vertical limits follow gear A alone. *)
Theorem view_holds_the_pitch_circles r1 r2 :
  0 <= r1 -> 0 <= r2 ->
  let l := set_limits r1 r2 (r1 + r2) in
  (forall p, Rsqr (fst p) + Rsqr (snd p) = Rsqr r1 -> in_view l p) /\
  ((forall p, Rsqr (fst p - (r1 + r2)) + Rsqr (snd p) = Rsqr r2 ->
              in_view l p)
   <-> r2 <= 12 / 10 * r1).
Proof.
  intros H1 H2 l. unfold l, in_view, set_limits. cbn [xlim ylim fst snd].
  split; [| split].
  - intros [x y]. cbn [fst snd]. unfold Rsqr. intros E.
    pose proof (Rle_0_sqr x) as Sx. pose proof (Rle_0_sqr y) as Sy.
    unfold Rsqr in Sx, Sy.
    assert (Hx : - r1 <= x <= r1) by (apply within_of_square; lra).
    assert (Hy : - r1 <= y <= r1) by (apply within_of_square; lra).
    lra.
  - intros H. specialize (H (r1 + r2, r2)). cbn [fst snd] in H.
    unfold Rsqr in H. destruct H as [_ [_ H]]; [ring | lra].
  - intros Hle [x y]. cbn [fst snd]. unfold Rsqr. intros E.
    pose proof (Rle_0_sqr (x - (r1 + r2))) as Sx.
    pose proof (Rle_0_sqr y) as Sy. unfold Rsqr in Sx, Sy.
    assert (Hx : - r2 <= x - (r1 + r2) <= r2)
      by (apply within_of_square; lra).
    assert (Hy : - r2 <= y <= r2) by (apply within_of_square; lra).
    lra.
Qed.

(** ** The file of the bevel export *)

Section FileName.
Import Ascii String.
Local Open Scope string_scope.

Lemma endswith_eq s suffix :
  str.endswith s suffix
  = if String.eqb s suffix then true
    else match s with
         | EmptyString => false
         | String _ s' => str.endswith s' suffix
         end.
Proof. destruct s; reflexivity. Qed.

Lemma endswith_spec s suffix :
  str.endswith s suffix = true <-> exists p, s = p ++ suffix.
Proof.
  split.
  - induction s as [|c s IH]; rewrite endswith_eq.
    + destruct (String.eqb "" suffix) eqn:E; [| discriminate].
      apply String.eqb_eq in E. intros _. exists "". rewrite <- E. reflexivity.
    + destruct (String.eqb (String c s) suffix) eqn:E.
      * apply String.eqb_eq in E. intros _. exists "". rewrite <- E.
        reflexivity.
      * intros H. destruct (IH H) as [p Hp]. exists (String c p).
        rewrite Hp. reflexivity.
  - intros [p ->]. induction p as [|c p IH]; rewrite endswith_eq.
    + change ("" ++ suffix) with suffix. rewrite String.eqb_refl. reflexivity.
    + change (String c p ++ suffix) with (String c (p ++ suffix)).
      destruct (String.eqb (String c (p ++ suffix)) suffix); [reflexivity |].
      exact IH.
Qed.

Lemma lower_append a b : str.lower (a ++ b) = str.lower a ++ str.lower b.
Proof. induction a as [|c a IH]; simpl; [| rewrite IH]; reflexivity. Qed.

(** X18: the name of the exported file.  Whatever name [main] hands to
    [export_bevel_gears] ends with ".3dm" once put in lower case; it is
    the name given on the command line, as it is when that one already
    ends so in some case and with ".3dm" added otherwise; and giving the
    result on the command line again changes nothing. *)
Theorem main_save_name save name :
  bevel_export.main_save save = Some name ->
  str.endswith (str.lower name) ".3dm" = true /\
  bevel_export.main_save (Some name) = Some name /\
  exists s,
    save = Some s /\ s <> "" /\
    (str.endswith (str.lower s) ".3dm" = true -> name = s) /\
    (str.endswith (str.lower s) ".3dm" = false -> name = s ++ ".3dm").
Proof.
  unfold bevel_export.main_save. destruct save as [s|]; [| discriminate].
  destruct (str.truthy s) eqn:Ht; [| discriminate].
  assert (Hne : s <> "") by (intros ->; discriminate).
  destruct (str.endswith (str.lower s) ".3dm") eqn:He; cbn [negb];
    intros H; injection H as <-.
  - rewrite Ht, He. cbn [negb]. repeat split.
    exists s. repeat split; auto; intros; congruence.
  - assert (E : str.endswith (str.lower (s ++ ".3dm")) ".3dm" = true).
    { apply endswith_spec. exists (str.lower s). apply lower_append. }
    rewrite E. cbn [negb]. split; [reflexivity |]. split.
    + destruct s; [contradiction | reflexivity].
    + exists s. repeat split; auto; intros; congruence.
Qed.

End FileName.

Section FileWrite.
Import bevel_gear_generator.
Variable World : Type.
Variable Polygon : Type.
Variable exterior_coords : Polygon -> list (R * R).
Variable gear_generate : gear.args -> M World (Polygon * R).
Variable gear_deg2rad : R -> R.
Variable Brep : Type.
Variable create_rhino_bevel_gear : BevelGear -> R -> option Brep.

Let export := export_bevel_gears World Polygon exterior_coords
                gear_generate gear_deg2rad Brep create_rhino_bevel_gear.

Lemma export_breps m t1 t2 pa c fw cl bl fc w e w' :
  export true m t1 t2 pa c fw cl bl fc w = (Ok (Some e), w') ->
  exp_brep1 Brep e = create_rhino_bevel_gear (exp_gear1 Brep e) (m * 2) /\
  (exp_brep2 Brep e = None
   <-> create_rhino_bevel_gear (exp_gear2 Brep e) (m * 2) = None).
Proof.
  unfold export, export_bevel_gears. cbn [negb]. unfold bind at 1.
  destruct (__init__ _ _ _ _ _ m t1 pa c fw cl bl fc w) as [[a1|x] w1];
    [| discriminate].
  unfold bind at 1.
  destruct (__init__ _ _ _ _ _ m t2 pa (90 - c) fw cl bl fc w1)
    as [[a2|x] w2]; [| discriminate].
  unfold bind, lift, ret.
  destruct (create_rhino_bevel_gear a2 (m * 2)) as [b2|] eqn:Hb.
  - destruct (truediv _ _) as [a|x]; [| discriminate].
    intros H. inversion H; subst. cbn. rewrite Hb.
    split; [reflexivity |]. split; discriminate.
  - intros H. inversion H; subst. cbn. rewrite Hb.
    split; [reflexivity |]. split; reflexivity.
Qed.

(** X19: the export never writes a gear.  After a run of
    [export_bevel_gears] that built and placed the gears, the file is
    written only when neither gear was lofted into a solid, and it then
    holds no object; as soon as one of the two solids exists the function
    raises [NameError], on the name [System], before it writes. *)
Theorem export_never_writes_a_gear m t1 t2 pa c fw cl bl fc w e w' filename :
  export true m t1 t2 pa c fw cl bl fc w = (Ok (Some e), w') ->
  let solid1 := create_rhino_bevel_gear (exp_gear1 Brep e) (m * 2) in
  let solid2 := create_rhino_bevel_gear (exp_gear2 Brep e) (m * 2) in
  (solid1 <> None \/ solid2 <> None ->
   bevel_export.write_file Brep e filename = bevel_export.NameError) /\
  (forall f objects,
      bevel_export.write_file Brep e filename
      = bevel_export.Wrote f objects ->
      f = filename /\ objects = [] /\ solid1 = None /\ solid2 = None).
Proof.
  intros Hrun solid1 solid2. apply export_breps in Hrun.
  destruct Hrun as [H1 H2]. unfold solid1, solid2.
  unfold bevel_export.write_file. rewrite <- H1.
  destruct (exp_brep1 Brep e) as [b1|].
  - split; [reflexivity | discriminate].
  - destruct (exp_brep2 Brep e) as [b2|] eqn:E2.
    + split; [reflexivity | discriminate].
    + split.
      * intros [H|H]; [contradiction |]. exfalso. apply H, H2. reflexivity.
      * intros f objects H. inversion H; subst.
        repeat split. apply H2. reflexivity.
Qed.

End FileWrite.

Section FlatStack.
Import bevel_gear_generator.
Variable World : Type.
Variable Polygon : Type.
Variable exterior_coords : Polygon -> list (R * R).
Variable gear_generate : gear.args -> M World (Polygon * R).
Variable gear_deg2rad : R -> R.

Let init := __init__ World Polygon exterior_coords gear_generate
                     gear_deg2rad.

(** X20: a face width of zero is accepted: the stack then holds all ten
    sections, every one of them the large end again, at axial offset 0,
    of scale 1 and of the pitch radius. *)
Theorem flat_stack m t pa c cl bl fc w g w' :
  init m t pa c 0 cl bl fc w = (Ok g, w') ->
  length (sections g) = 10%nat /\
  forall s, In s (sections g) ->
    z s = 0 /\ scale s = 1 /\ radius s = IZR t * m / 2.
Proof.
  intros Hrun. apply init_inv in Hrun.
  destruct Hrun as [Eg [_ [Ha HF]]].
  destruct (apex_of_init _ _ _ _ _ _ _ _ _ _ Eg) as [_ [Efw [Ep _]]].
  assert (Hn : (1 < 10)%Z) by lia.
  assert (Hsc : forall i, Spec.scale (spec_section g 10 i) = 1).
  { intros i. rewrite scale_eq, Efw. field. split; [simpl; lra | exact Ha]. }
  rewrite filter_all_id in HF.
  2:{ intros i _. unfold kept. rewrite Hsc. apply Rgtb_true. lra. }
  split.
  - apply Forall2_length in HF. rewrite <- HF, range_length. reflexivity.
  - intros s Hs.
    destruct (Forall2_In_r _ _ _ _ HF Hs) as [i [_ [Hz [Hs1 [Hr _]]]]].
    rewrite Hz, Hs1, Hr, effectiveRadius_eq, Hsc, axialOffset_eq, Efw, Ep.
    repeat split; ring.
Qed.

End FlatStack.

(** ** Runs of the further properties over the stand-in library *)

(** A count of one section on a cone angle of 90 degrees. *)
Lemma generate_sections_count_edges_witness :
  bevel_gear_generator._generate_sections Demo.World Demo.Polygon
    Demo.exterior_coords Demo.generate Demo.deg2rad
    (bevel_gear_generator.MkBevelGear 5 20 20 90 15 (1 / 4) 0 0 16
       (PI * 5) 50 []) 1 []
  = (Raise ZeroDivisionError, []).
Proof.
  apply (generate_sections_count_edges Demo.World Demo.Polygon
           Demo.exterior_coords Demo.generate Demo.deg2rad).
  cbn [bevel_gear_generator.cone_angle]. rewrite radians_90, sin_PI2. lra.
Defined.

(** A cone angle of 0 degrees. *)
Lemma init_zero_division_witness :
  Demo.BevelGear__init__ 5 20 20 0 15 (1 / 4) 0 16 []
  = (Raise ZeroDivisionError, []).
Proof.
  apply (init_zero_division Demo.World Demo.Polygon Demo.exterior_coords
           Demo.generate Demo.deg2rad).
  left. reflexivity.
Defined.

(** A face of 15 on an apex distance of 50. *)
Lemma stack_is_contiguous_witness :
  exists g w',
    Demo.BevelGear__init__ 5 20 20 90 15 (1 / 4) 0 16 [] = (Ok g, w') /\
    (1 <= length (bevel_gear_generator.sections g) <= 10)%nat.
Proof.
  destruct (demo_gear_90 15) as [g [w' [Hrun _]]].
  exists g, w'. split; [exact Hrun |].
  apply (stack_is_contiguous Demo.World Demo.Polygon Demo.exterior_coords
           Demo.generate Demo.deg2rad 5 20 20 90 15 (1 / 4) 0 16 [] g w');
    [lra | rewrite apexDistance_90; lra | exact Hrun].
Defined.

Lemma stack_stops_before_apex_witness :
  exists g w',
    Demo.BevelGear__init__ 5 20 20 90 15 (1 / 4) 0 16 [] = (Ok g, w') /\
    forall s, In s (bevel_gear_generator.sections g) ->
      bevel_gear_generator.z s
      < 91 / 100 * Spec.apexDistance (IZR 20 * 5 / 2) 90.
Proof.
  destruct (demo_gear_90 15) as [g [w' [Hrun _]]].
  exists g, w'. split; [exact Hrun |].
  apply (stack_stops_before_apex Demo.World Demo.Polygon Demo.exterior_coords
           Demo.generate Demo.deg2rad 5 20 20 90 15 (1 / 4) 0 16 [] g w');
    [rewrite apexDistance_90; lra | exact Hrun].
Defined.

Lemma sections_lie_on_cone_witness :
  exists g w',
    Demo.BevelGear__init__ 5 20 20 90 15 (1 / 4) 0 16 [] = (Ok g, w') /\
    forall s, In s (bevel_gear_generator.sections g) ->
      bevel_gear_generator.radius s
      = (Spec.apexDistance (IZR 20 * 5 / 2) 90 - bevel_gear_generator.z s)
        * sin (radians 90).
Proof.
  destruct (demo_gear_90 15) as [g [w' [Hrun _]]].
  exists g, w'. split; [exact Hrun |]. intros s Hs.
  apply (sections_lie_on_cone Demo.World Demo.Polygon Demo.exterior_coords
           Demo.generate Demo.deg2rad 5 20 20 90 15 (1 / 4) 0 16 [] g w'
           Hrun s Hs).
Defined.

Lemma small_end_section_witness :
  exists g w' s,
    Demo.BevelGear__init__ 5 20 20 90 15 (1 / 4) 0 16 [] = (Ok g, w') /\
    nth_error (bevel_gear_generator.sections g) 9 = Some s /\
    bevel_gear_generator.z s = 15.
Proof.
  destruct (demo_gear_90 15) as [g [w' [Hrun _]]].
  destruct (small_end_section Demo.World Demo.Polygon Demo.exterior_coords
              Demo.generate Demo.deg2rad 5 20 20 90 15 (1 / 4) 0 16 [] g w')
    as [s [H9 [_ [Hz _]]]];
    [lra | rewrite apexDistance_90; lra | exact Hrun |].
  exists g, w', s. auto.
Defined.

(** A face of 500 on an apex distance of 50. *)
Lemma stack_of_one_section_witness :
  exists g w' s,
    Demo.BevelGear__init__ 5 20 20 90 500 (1 / 4) 0 16 [] = (Ok g, w') /\
    bevel_gear_generator.sections g = [s].
Proof.
  destruct (demo_gear_90 500) as [g [w' [Hrun _]]].
  destruct (stack_of_one_section Demo.World Demo.Polygon Demo.exterior_coords
              Demo.generate Demo.deg2rad 5 20 20 90 500 (1 / 4) 0 16 [] g w')
    as [s [Hs _]];
    [rewrite apexDistance_90; lra .. | exact Hrun |].
  exists g, w', s. auto.
Defined.

(** A face of 0. *)
Lemma flat_stack_witness :
  exists g w',
    Demo.BevelGear__init__ 5 20 20 90 0 (1 / 4) 0 16 [] = (Ok g, w') /\
    length (bevel_gear_generator.sections g) = 10%nat.
Proof.
  destruct (demo_gear_90 0) as [g [w' [Hrun _]]].
  exists g, w'. split; [exact Hrun |].
  apply (flat_stack Demo.World Demo.Polygon Demo.exterior_coords
           Demo.generate Demo.deg2rad 5 20 20 90 (1 / 4) 0 16 [] g w' Hrun).
Defined.

(** The bevel program on a cone angle of 0 degrees. *)
Lemma pair_cone_angle_at_the_ends_witness :
  Demo.bevel_main
    (bevel_gear_generator.MkNamespace 5 20 20 20 0 15 0 (1 / 4) false 16 true)
    []
  = (Raise ZeroDivisionError, []).
Proof.
  apply (proj1 (pair_cone_angle_at_the_ends Demo.World Demo.Polygon
                  Demo.exterior_coords Demo.generate Demo.deg2rad
                  Demo.Brep Demo.create_rhino_bevel_gear)).
  reflexivity.
Defined.

(** The figure of the default pair. *)
Lemma figure_planes_of_gear_B_witness :
  exists g1 g2 fig w' apexA,
    bevel_gear_generator.visualize_bevel_gears Demo.World g1 g2 w'
      = (Ok fig, w') /\
    bevel_gear_generator.red fig
    = map (fun s => map (fun q => (apexA + bevel_gear_generator.z s,
                                   snd q, - fst q))
                        (bevel_gear_generator.points s))
          (bevel_gear_generator.sections g2).
Proof.
  destruct demo_main_run as [g1 [g2 [fig [w' [_ [Hv _]]]]]].
  destruct (figure_planes_of_gear_B Demo.World g1 g2 w' fig w' Hv)
    as [apexA [_ [Hr _]]].
  exists g1, g2, fig, w', apexA. auto.
Defined.

(** A spur gear of the stand-in library and its patch. *)
Lemma demo_patch :
  exists g w' p,
    Demo.InvoluteGear__init__ 1 30 20 (1 / 4) 0 0 [] = (Ok g, w') /\
    gear_generator.create_gear_patch Demo.Polygon Demo.exterior_coords g 3
    = Ok (p, gear_generator.pitch_radius Demo.Polygon g).
Proof.
  destruct (involute_init_returns Demo.World Demo.Polygon Demo.generate
              Demo.deg2rad 1 30 20 (1 / 4) 0 0 [] demo_returns)
    as [g [w' Hrun]].
  destruct (create_gear_patch_returns Demo.Polygon Demo.exterior_coords g 3)
    as [p Hp].
  - apply involute_init_inv in Hrun. destruct Hrun as [Hg _].
    unfold gear_generator.points. eapply demo_not_empty, Hg.
  - exists g, w', p. auto.
Qed.

Lemma create_gear_patch_path_witness :
  exists g p,
    gear_generator.create_gear_patch Demo.Polygon Demo.exterior_coords g 3
    = Ok (p, gear_generator.pitch_radius Demo.Polygon g) /\
    length (gear_generator.codes p) = length (gear_generator.vertices p).
Proof.
  destruct demo_patch as [g [w' [p [_ Hp]]]].
  exists g, p. split; [exact Hp |].
  apply (create_gear_patch_path Demo.Polygon Demo.exterior_coords g 3 p _ Hp).
Defined.

Lemma create_gear_patch_rings_witness :
  exists g p ring,
    gear_generator.create_gear_patch Demo.Polygon Demo.exterior_coords g 3
    = Ok (p, gear_generator.pitch_radius Demo.Polygon g) /\
    length ring = 50%nat /\
    Forall (fun v => Rsqr (fst v) + Rsqr (snd v) = Rsqr 3) ring.
Proof.
  destruct demo_patch as [g [w' [p [_ Hp]]]].
  destruct (create_gear_patch_rings Demo.Polygon Demo.exterior_coords
              g 3 p _ Hp) as [first [ring [_ [_ [Hl [_ Hc]]]]]].
  exists g, p, ring. auto.
Defined.

(** A gear whose polygon has no point. *)
Lemma create_gear_patch_error_witness :
  gear_generator.create_gear_patch Demo.Polygon Demo.exterior_coords
    (gear_generator.MkInvoluteGear Demo.Polygon 1 30 20 (1 / 4) 0 0 PI [] 15)
    3
  = Raise IndexError.
Proof.
  apply (proj1 (create_gear_patch_error Demo.Polygon Demo.exterior_coords
                  _ 3)).
  reflexivity.
Defined.

(** The spur program on module 1 and 30 and 15 teeth. *)
Lemma spur_placement_is_rigid_witness :
  exists pl w' pA pB,
    Demo.export_gears_only 1 30 15 20 (1 / 4) 0 [] = (Ok pl, w') /\
    gear_generator.patches pl = [pA; pB] /\
    transform_vertex (gear_generator.transform pB) (0, 0)
    = (gear_generator.center_distance pl, 0).
Proof.
  destruct (export_gears_only_returns Demo.World Demo.Polygon
              Demo.exterior_coords Demo.generate Demo.deg2rad
              1 30 15 20 (1 / 4) 0 [] demo_returns demo_not_empty)
    as [pl [w' Hrun]]; [discriminate |].
  destruct (spur_placement_is_rigid Demo.World Demo.Polygon
              Demo.exterior_coords Demo.generate Demo.deg2rad
              1 30 15 20 (1 / 4) 0 [] pl w' Hrun)
    as [pA [pB [Hp [_ [Hc _]]]]].
  exists pl, w', pA, pB. auto.
Defined.

(** The spur program with a second gear without teeth. *)
Lemma export_gears_only_without_teeth_witness :
  exists w',
    Demo.export_gears_only 1 30 0 20 (1 / 4) 0 []
    = (Raise ZeroDivisionError, w').
Proof.
  destruct (proj2 (export_gears_only_without_teeth Demo.World Demo.Polygon
                     Demo.exterior_coords Demo.generate Demo.deg2rad
                     1 30 20 (1 / 4) 0 [])
              demo_returns demo_not_empty)
    as [g1 [w1 [g2 [w2 [_ [_ Hrun]]]]]].
  exists w2. exact Hrun.
Defined.

(** Pitch radii of 15 and 15 / 2. *)
Lemma view_holds_the_pitch_circles_witness :
  in_view (set_limits 15 (15 / 2) (15 + 15 / 2)) (15, 0).
Proof.
  apply (proj1 (view_holds_the_pitch_circles 15 (15 / 2)
                  ltac:(lra) ltac:(lra))).
  cbn [fst snd]. unfold Rsqr. ring.
Defined.

Section FileRuns.
Import Ascii String.

(** The names "gear" and "GEAR.3DM" on the command line. *)
Lemma main_save_name_witness :
  bevel_export.main_save (Some "gear"%string) = Some "gear.3dm"%string /\
  bevel_export.main_save (Some "GEAR.3DM"%string) = Some "GEAR.3DM"%string /\
  str.endswith (str.lower "gear.3dm") ".3dm" = true.
Proof.
  split; [reflexivity |]. split; [reflexivity |].
  apply (main_save_name (Some "gear"%string) "gear.3dm"%string eq_refl).
Defined.

(** The export of the default pair with a Rhino that lofts every gear. *)
Lemma demo_export_run :
  exists e w',
    Demo.export_bevel_gears true 5 20 20 20 45 15 (1 / 4) 0 16 []
    = (Ok (Some e), w').
Proof.
  assert (Hs : forall c, 0 < c <= 90 -> sin (radians c) <> 0).
  { intros c Hc. apply Rgt_not_eq, sin_cone_pos, Hc. }
  unfold Demo.export_bevel_gears, bevel_gear_generator.export_bevel_gears.
  cbn [negb]. unfold bind at 1.
  destruct (init_returns Demo.World Demo.Polygon Demo.exterior_coords
              Demo.generate Demo.deg2rad 5 20 20 45 15 (1 / 4) 0 16 [])
    as [g1 [w1 H1]]; [apply Hs; lra | lra | exact demo_returns |].
  rewrite H1. unfold bind at 1.
  destruct (init_returns Demo.World Demo.Polygon Demo.exterior_coords
              Demo.generate Demo.deg2rad 5 20 20 (90 - 45) 15 (1 / 4) 0 16 w1)
    as [g2 [w2 H2]]; [apply Hs; lra | lra | exact demo_returns |].
  rewrite H2. unfold bind, lift, ret, Demo.create_rhino_bevel_gear.
  apply init_inv in H1. destruct H1 as [E1 _].
  rewrite truediv_Ok
    by (rewrite E1; cbn [bevel_gear_generator.cone_angle]; apply Hs; lra).
  eauto.
Qed.

Lemma export_never_writes_a_gear_witness :
  exists e w',
    Demo.export_bevel_gears true 5 20 20 20 45 15 (1 / 4) 0 16 []
    = (Ok (Some e), w') /\
    bevel_export.write_file Demo.Brep e "gears.3dm"%string
    = bevel_export.NameError.
Proof.
  destruct demo_export_run as [e [w' Hrun]].
  exists e, w'. split; [exact Hrun |].
  apply (proj1 (export_never_writes_a_gear Demo.World Demo.Polygon
                  Demo.exterior_coords Demo.generate Demo.deg2rad
                  Demo.Brep Demo.create_rhino_bevel_gear
                  5 20 20 20 45 15 (1 / 4) 0 16 [] e w' "gears.3dm"%string
                  Hrun)).
  left. discriminate.
Defined.

End FileRuns.

(** ** Runs of the section loop in binary64 *)

Section RoundingRuns.
Import PrimFloat.
Local Open Scope float_scope.
#[local] Set Warnings "-inexact-float".

(** X22: the section loop at its edges, in binary64.  Near nine tenths
    of the apex distance rounding decides whether the small end is
    stored: for module 5, 20 teeth, a cone angle of 30 degrees (sine
    0.49999999999999994) and a face width of 90 the stack has ten
    sections, the last at the axial offset 90 with the scale
    0.10000000000000013; for module 0.4, 5 teeth, a cone angle of 90
    degrees (sine 1.0) and a face width of 0.9 it has nine.  For the
    smallest positive face width, 5e-324, the stack has ten sections and
    the first two lie at the same axial offset 0. *)
Theorem section_loop_rounding :
  (exists l s,
      binary64.__init__ 5 20 90 0x1.fffffffffffffp-2 = Ok l /\
      length l = 10%nat /\ nth_error l 9 = Some s /\
      binary64.z s = 90 /\ binary64.scale s = 0.10000000000000013) /\
  (exists l,
      binary64.__init__ 0.4 5 0.9 1 = Ok l /\ length l = 9%nat) /\
  (exists l s1 s2,
      binary64.__init__ 5 20 5e-324 1 = Ok l /\
      length l = 10%nat /\
      nth_error l 0 = Some s1 /\ nth_error l 1 = Some s2 /\
      binary64.z s1 = 0 /\ binary64.z s2 = 0).
Proof.
  split; [| split].
  - eexists. eexists. split; [vm_compute; reflexivity |].
    split; [reflexivity |]. split; [reflexivity |].
    split; vm_compute; reflexivity.
  - eexists. split; [vm_compute; reflexivity | reflexivity].
  - eexists. eexists. eexists. split; [vm_compute; reflexivity |].
    split; [reflexivity |]. split; [reflexivity |]. split; [reflexivity |].
    split; reflexivity.
Qed.

End RoundingRuns.
